(** * drive: Move, Rename and Copy against a remote store (move.go, copy.go)

    A shallow embedding of the three verbs of package [drive] and of their
    helpers [move], [move_], [removeParent], [rename_], [copy_] and [copy].

    The remote store ([g.rem]) and the helpers of the package that live in
    other files ([commonPrefix], [customQuote], [urlToPath], [sepJoin],
    [parentPather], [pathSplitter], [remoteMkdirAll], [ForceKey], the text of
    [ErrPathNotExists]) are parameters: the theorems hold for every store and
    every such helper.  Commands run in a small monad that threads the store,
    records every store call, log line and printed line as an event, and
    stops on a Go panic (nil pointer dereference, index out of range). *)

From Stdlib Require Import String Ascii List Bool Arith Lia.
Import ListNotations.
Local Open Scope string_scope.
Local Open Scope list_scope.

(** ** Data model *)

(** The fields of [File] that move.go and copy.go read. *)
Record File : Type := mkFile {
  Id : string;
  Name : string;
  IsDir : bool;
  Copyable : bool
}.

(** Go [error] values.  The two sentinels are compared by identity in the
    source ([err != ErrPathNotExists]); every other error value, whether made
    by [fmt.Errorf] here or handed back by the store, is an [Errorf]. *)
Inductive error : Type :=
| ErrPathNotExists
| ErrPathNotDir
| Errorf (msg : string).

Definition is_ErrPathNotExists (e : error) : bool :=
  match e with ErrPathNotExists => true | _ => false end.

(** [err != nil && err != ErrPathNotExists] *)
Definition hardError (err : option error) : option error :=
  match err with
  | Some e => if is_ErrPathNotExists e then None else Some e
  | None => None
  end.

(** Every call made to the store, and every line logged or printed. The
    mutating calls carry the error they returned ([None] is Go's nil). *)
Inductive Event : Type :=
| EvFindByPath (p : string)
| EvFindByIdMulti (id : string)
| EvFindChildren (parentId : string)
| EvInsertParent (fileId parentId : string) (res : option error)
| EvRemoveParent (fileId parentId : string) (res : option error)
| EvRename (fileId newName : string) (res : option error)
| EvCopy (newName parentId : string) (from : File) (res : option error)
| EvMkdirAll (p : string) (res : option error)
| EvLogln (msg : string)
| EvLogErrf (msg : string)
| EvPrintf (msg : string).

(** The calls that change the store. *)
Definition is_mutation (e : Event) : bool :=
  match e with
  | EvInsertParent _ _ _ | EvRemoveParent _ _ _ | EvRename _ _ _
  | EvCopy _ _ _ _ | EvMkdirAll _ _ => true
  | _ => false
  end.

Record Options : Type := mkOptions {
  Sources : list string;
  Force : bool;
  Path : string
}.

Record moveOpt : Type := mkMoveOpt {
  src : string;
  dest : string;
  byId : bool;
  srcFile : option File;
  destFile : option File
}.

(** ** The remote store, as the code uses it *)

Module Remote.
(** [St] is the state of the store.  Lookups read it, mutations return the
    new one.  A lookup returns Go's pair (files, err); a [None] entry of
    the list is a nil [*File]. *)
Record t (St : Type) : Type := mk {
  FindByPath : string -> St -> list (option File) * option error;
  FindByIdMulti : string -> St -> list (option File) * option error;
  findChildren : string -> bool -> St -> list (option File);
  insertParent : string -> string -> St -> option error * St;
  removeParent : string -> string -> St -> option error * St;
  rename : string -> string -> St -> (option File * option error) * St;
  copy : string -> string -> File -> St -> (option File * option error) * St
}.
Arguments FindByPath {St}.
Arguments FindByIdMulti {St}.
Arguments findChildren {St}.
Arguments insertParent {St}.
Arguments removeParent {St}.
Arguments rename {St}.
Arguments copy {St}.
End Remote.

(** [*Commands], with the methods that are defined outside move.go and
    copy.go as fields. *)
Record Commands (St : Type) : Type := mkCommands {
  opts : Options;
  rem : Remote.t St;
  parentPather : string -> string;
  pathSplitter : string -> string * string;
  remoteMkdirAll : string -> St -> (option File * option error) * St
}.
Arguments opts {St}.
Arguments rem {St}.
Arguments parentPather {St}.
Arguments pathSplitter {St}.
Arguments remoteMkdirAll {St}.

(** ** The command monad *)

Inductive Outcome (A : Type) : Type :=
| Done (a : A)
| Panic (why : string)
| OutOfFuel.
Arguments Done {A}.
Arguments Panic {A}.
Arguments OutOfFuel {A}.

Record Res (St A : Type) : Type := mkRes {
  outcome : Outcome A;
  final : St;
  events : list Event
}.
Arguments mkRes {St A}.
Arguments outcome {St A}.
Arguments final {St A}.
Arguments events {St A}.

Definition M (St A : Type) : Type := St -> Res St A.

Definition ret {St A} (a : A) : M St A := fun s => mkRes (Done a) s [].

Definition bind {St A B} (m : M St A) (f : A -> M St B) : M St B :=
  fun s =>
    let r := m s in
    match outcome r with
    | Done a =>
        let r' := f a (final r) in
        mkRes (outcome r') (final r') (events r ++ events r')
    | Panic why => mkRes (Panic why) (final r) (events r)
    | OutOfFuel => mkRes OutOfFuel (final r) (events r)
    end.

Definition panic {St A} (why : string) : M St A :=
  fun s => mkRes (Panic why) s [].

Definition outOfFuel {St A} : M St A := fun s => mkRes OutOfFuel s [].

Definition emit {St} (e : Event) : M St unit := fun s => mkRes (Done tt) s [e].

(** A lookup: the store is read and left as it is. *)
Definition query {St A} (e : Event) (f : St -> A) : M St A :=
  fun s => mkRes (Done (f s)) s [e].

Declare Scope cmd_scope.
Delimit Scope cmd_scope with cmd.
Notation "x <- m ;; k" := (bind m (fun x => k))
  (at level 61, m at next level, right associativity) : cmd_scope.
Notation "' p <- m ;; k" := (bind m (fun x => let 'p := x in k))
  (at level 61, p pattern, m at next level, right associativity) : cmd_scope.
Notation "m ;; k" := (bind m (fun _ => k))
  (at level 61, right associativity) : cmd_scope.
Local Open Scope cmd_scope.

(** [p.Field] on a [*File]: a nil pointer panics. *)
Definition deref {St} (what : string) (p : option File) : M St File :=
  match p with
  | Some f => ret f
  | None => panic ("nil pointer dereference: " ++ what)
  end.

(** [for _, x := range xs { body }] where the body may [return err]:
    [Some e] leaves the loop and the function with [e]. *)
Fixpoint rangeReturn {St A} (xs : list A) (body : A -> M St (option error))
  : M St (option error) :=
  match xs with
  | [] => ret None
  | x :: xs' =>
      r <- body x ;;
      match r with
      | Some e => ret (Some e)
      | None => rangeReturn xs' body
      end
  end.

(** [for _, x := range xs { body }] over variables [acc] the body updates. *)
Fixpoint rangeAcc {St A B} (xs : list A) (body : B -> A -> M St B) (acc : B)
  : M St B :=
  match xs with
  | [] => ret acc
  | x :: xs' => acc' <- body acc x ;; rangeAcc xs' body acc'
  end.

(** A command that always returns: no panic, and no fuel to run out of. *)
Definition total {St A} (m : M St A) : Prop :=
  forall s, exists a, outcome (m s) = Done a.

(** Every event a command leaves satisfies [P], whatever the store. *)
Definition emits {St A} (P : Event -> Prop) (m : M St A) : Prop :=
  forall s, Forall P (events (m s)).

(** ** Formatting *)

Definition nl : string := String (ascii_of_nat 10) EmptyString.

(** [%v] of a [[]string]. *)
Definition fmtStrings (l : list string) : string :=
  "[" ++ String.concat " " l ++ "]".

(** ** A small store to run the commands on

    An in-memory stand-in for the remote store: a table from paths (and
    identifiers) to the files they resolve to, the set of parent edges, and
    a switch that makes every [removeParent] call fail.  The general
    theorems do not depend on it; it is the store of the concrete runs. *)

Module TestStore.

Record t : Type := mk {
  paths : list (string * list (option File));
  edges : list (string * string);
  removeFails : bool
}.

Definition lookup (p : string) (s : t) : list (option File) * option error :=
  match find (fun kv => String.eqb (fst kv) p) (paths s) with
  | Some kv => (snd kv, None)
  | None => ([], Some ErrPathNotExists)
  end.

Definition addEdge (child parent : string) (s : t) : t :=
  mk (paths s) ((child, parent) :: edges s) (removeFails s).

Definition dropEdge (child parent : string) (s : t) : t :=
  mk (paths s)
     (filter (fun e => negb (String.eqb (fst e) child
                               && String.eqb (snd e) parent)) (edges s))
     (removeFails s).

Definition hasEdge (child parent : string) (s : t) : bool :=
  existsb (fun e => String.eqb (fst e) child && String.eqb (snd e) parent)
          (edges s).

Definition remote : Remote.t t :=
  Remote.mk t
    lookup
    lookup
    (fun _ _ _ => [])
    (fun child parent s => (None, addEdge child parent s))
    (fun child parent s =>
       if removeFails s then (Some (Errorf "backend failure"), s)
       else (None, dropEdge child parent s))
    (fun _ _ s => ((None, None), s))
    (fun newName parent from s =>
       ((Some (mkFile ("copy-of-" ++ Id from) newName false true), None),
        addEdge ("copy-of-" ++ Id from) parent s)).

Definition mkdirAll (p : string) (s : t) : (option File * option error) * t :=
  match fst (lookup p s) with
  | Some f :: _ => ((Some f, None), s)
  | _ => ((Some (mkFile ("dir-" ++ p) p true false), None), s)
  end.

Fixpoint hasSlash (s : string) : bool :=
  match s with
  | EmptyString => false
  | String c s' => Ascii.eqb c "/"%char || hasSlash s'
  end.

(** Everything before the last slash. *)
Fixpoint dirOf (s : string) : string :=
  match s with
  | EmptyString => EmptyString
  | String c s' => if hasSlash s' then String c (dirOf s') else EmptyString
  end.

(** Everything after the last slash. *)
Fixpoint baseOf (s : string) : string :=
  match s with
  | EmptyString => EmptyString
  | String c s' => if hasSlash s then baseOf s' else s
  end.

(** Joining two path elements; an empty element is ignored. *)
Definition join (a b : string) : string :=
  match a, b with
  | EmptyString, _ => b
  | _, EmptyString => a
  | _, _ => a ++ "/" ++ b
  end.

(** The longest common prefix of two strings, character by character. *)
Fixpoint commonPrefix (a b : string) : string :=
  match a, b with
  | String x a', String y b' =>
      if Ascii.eqb x y then String x (commonPrefix a' b') else EmptyString
  | _, _ => EmptyString
  end.

Definition quote (s : string) : string := "'" ++ s ++ "'".

Definition commands (sources : list string) (force : bool) : Commands t :=
  mkCommands t (mkOptions sources force EmptyString) remote
    dirOf (fun p => (dirOf p, baseOf p)) mkdirAll.

(** The files of the runs. *)
Definition docs : File := mkFile "id-docs" "docs" true false.
Definition archive : File := mkFile "id-archive" "archive" true false.
Definition report : File := mkFile "id-report" "report.txt" false true.
Definition other : File := mkFile "id-other" "report.txt" false true.
Definition notes : File := mkFile "id-notes" "notes.txt" false true.

(** [docs/report.txt] and [docs/notes.txt] under [docs], an empty
    [archive]. *)
Definition store0 : t :=
  mk [("docs", [Some docs]); ("archive", [Some archive]);
      ("docs/report.txt", [Some report]); ("docs/notes.txt", [Some notes])]
     [("id-report", "id-docs"); ("id-notes", "id-docs")]
     false.

(** As [store0], with every [removeParent] call failing. *)
Definition store_rmfail : t := mk (paths store0) (edges store0) true.

(** As [store0], after [report.txt] was already linked under [archive]. *)
Definition store_moved : t :=
  mk (("archive/report.txt", [Some report]) :: paths store0)
     (("id-report", "id-archive") :: edges store0)
     false.

(** As [store0], with a different [report.txt] already in [archive]. *)
Definition store_dup : t :=
  mk (("archive/report.txt", [Some other]) :: paths store0)
     (("id-other", "id-archive") :: edges store0)
     false.

(** A source path that resolves to a nil entry, and an object at the
    name it would be renamed to. *)
Definition store_ghost : t :=
  mk [("ghost.txt", [None]); ("new.txt", [Some other])] [] false.

Definition urlToPath (p : string) (_ : bool) : string := p.

Definition sepJoin (sep : string) (l : list string) : string :=
  String.concat sep l.

Definition ForceKey : string := "force".

Definition notExistsText : string := "remote path doesn't exist".

Definition moveOf (source destination : string) (from to : File) : moveOpt :=
  mkMoveOpt source destination false (Some from) (Some to).

End TestStore.

(** ** Stores that fail

    Variations of [TestStore] for the runs that need a failing store: one
    that refuses every change, one whose lookups fail, and a few more
    tables. *)

Module FaultyStore.

Import TestStore.

(** Every change is refused; lookups work. *)
Definition remote_ro : Remote.t TestStore.t :=
  Remote.mk TestStore.t
    lookup
    lookup
    (fun _ _ _ => [])
    (fun _ _ s => (Some (Errorf "read-only store"), s))
    (fun _ _ s => (Some (Errorf "read-only store"), s))
    (fun _ _ s => ((None, Some (Errorf "read-only store")), s))
    (fun _ _ _ s => ((None, Some (Errorf "read-only store")), s)).

Definition commands_ro (sources : list string) (force : bool)
  : Commands TestStore.t :=
  mkCommands TestStore.t (mkOptions sources force EmptyString) remote_ro
    dirOf (fun p => (dirOf p, baseOf p))
    (fun _ s => ((None, Some (Errorf "read-only store")), s)).

(** Every lookup fails with an error of the backend. *)
Definition remote_down : Remote.t TestStore.t :=
  Remote.mk TestStore.t
    (fun _ _ => ([], Some (Errorf "backend failure")))
    (fun _ _ => ([], Some (Errorf "backend failure")))
    (fun _ _ _ => [])
    (fun _ _ s => (Some (Errorf "backend failure"), s))
    (fun _ _ s => (Some (Errorf "backend failure"), s))
    (fun _ _ s => ((None, Some (Errorf "backend failure")), s))
    (fun _ _ _ s => ((None, Some (Errorf "backend failure")), s)).

Definition commands_down (sources : list string) (force : bool)
  : Commands TestStore.t :=
  mkCommands TestStore.t (mkOptions sources force EmptyString) remote_down
    dirOf (fun p => (dirOf p, baseOf p))
    (fun _ s => ((None, Some (Errorf "backend failure")), s)).

(** [report.txt] directly under the root, whose path has no name. *)
Definition store_root : TestStore.t :=
  TestStore.mk [("report.txt", [Some report]); ("archive", [Some archive])]
               [] false.

(** [docs] resolves to the directory and to a nil entry. *)
Definition store_nilparent : TestStore.t :=
  TestStore.mk [("docs", [Some docs; None]); ("archive", [Some archive]);
                ("docs/report.txt", [Some report])]
               [("id-report", "id-docs")] false.

(** The path [mix] resolves to a directory and to a file. *)
Definition store_mix : TestStore.t :=
  TestStore.mk (("mix", [Some archive; Some report]) :: paths store0)
               (edges store0) false.

(** A leaf the store does not allow to be copied. *)
Definition gdoc : File := mkFile "id-gdoc" "plan.gdoc" false false.

(** The store of [TestStore] with one child listed under [docs], a leaf
    that may not be copied. *)
Definition remote_kids : Remote.t TestStore.t :=
  Remote.mk TestStore.t
    lookup
    lookup
    (fun parent _ _ =>
       if String.eqb parent "id-docs" then [Some gdoc] else [])
    (Remote.insertParent remote)
    (Remote.removeParent remote)
    (Remote.rename remote)
    (Remote.copy remote).

Definition commands_kids (sources : list string) (force : bool)
  : Commands TestStore.t :=
  mkCommands TestStore.t (mkOptions sources force EmptyString) remote_kids
    dirOf (fun p => (dirOf p, baseOf p)) mkdirAll.

(** As [store_nilparent], with every [removeParent] call failing. *)
Definition store_nilparent_rmfail : TestStore.t :=
  TestStore.mk (paths store_nilparent) (edges store_nilparent) true.





End FaultyStore.

Section Drive.

Variable St : Type.

(** Package-level helpers and constants declared in other files. *)
Variable commonPrefix : string -> string -> string.
Variable customQuote : string -> string.
Variable urlToPath : string -> bool -> string.
Variable sepJoin : string -> list string -> string.
Variable ForceKey : string.
Variable ErrPathNotExists_text : string.
(** [filepath.Join] of the Go standard library, at two elements. *)
Variable filepath_Join : string -> string -> string.

(** [err.Error()], which [%v] prints. *)
Definition Error (e : error) : string :=
  match e with
  | ErrPathNotExists => ErrPathNotExists_text
  | ErrPathNotDir => "not a directory"
  | Errorf msg => msg
  end.

(** [%v] of a [[]error]. *)
Definition fmtErrors (l : list error) : string := fmtStrings (map Error l).

Abbreviation Cmd := (M St).
Abbreviation Commands := (Commands St).

(** *** Calls to the store, each leaving its event *)

Definition FindByPath (g : Commands) (p : string)
  : Cmd (list (option File) * option error) :=
  query (EvFindByPath p) (Remote.FindByPath (rem g) p).

Definition FindByIdMulti (g : Commands) (id : string)
  : Cmd (list (option File) * option error) :=
  query (EvFindByIdMulti id) (Remote.FindByIdMulti (rem g) id).

Definition findChildren (g : Commands) (parentId : string) (trashed : bool)
  : Cmd (list (option File)) :=
  query (EvFindChildren parentId) (Remote.findChildren (rem g) parentId trashed).

Definition insertParent (g : Commands) (fileId parentId : string)
  : Cmd (option error) :=
  fun s =>
    let '(err, s') := Remote.insertParent (rem g) fileId parentId s in
    mkRes (Done err) s' [EvInsertParent fileId parentId err].

Definition rem_removeParent (g : Commands) (fileId parentId : string)
  : Cmd (option error) :=
  fun s =>
    let '(err, s') := Remote.removeParent (rem g) fileId parentId s in
    mkRes (Done err) s' [EvRemoveParent fileId parentId err].

Definition rem_rename (g : Commands) (fileId newName : string)
  : Cmd (option File * option error) :=
  fun s =>
    let '(r, s') := Remote.rename (rem g) fileId newName s in
    mkRes (Done r) s' [EvRename fileId newName (snd r)].

Definition rem_copy (g : Commands) (newName parentId : string) (from : File)
  : Cmd (option File * option error) :=
  fun s =>
    let '(r, s') := Remote.copy (rem g) newName parentId from s in
    mkRes (Done r) s' [EvCopy newName parentId from (snd r)].

Definition mkdirAll (g : Commands) (p : string)
  : Cmd (option File * option error) :=
  fun s =>
    let '(r, s') := remoteMkdirAll g p s in
    mkRes (Done r) s' [EvMkdirAll p (snd r)].

Definition LogErrf (msg : string) : Cmd unit := emit (EvLogErrf msg).
Definition Logln (msg : string) : Cmd unit := emit (EvLogln msg).
Definition Printf (msg : string) : Cmd unit := emit (EvPrintf msg).

(** *** move.go *)

(** [func (g *Commands) removeParent(fileId, relToRootPath string) error] *)
Definition removeParent (g : Commands) (fileId relToRootPath : string)
  : Cmd (option error) :=
  let parentPath := parentPather g relToRootPath in
  '(parents, pErr) <- FindByPath g parentPath ;;
  match pErr with
  | Some e => ret (Some e)
  | None =>
      rangeReturn parents (fun parent =>
        match parent with
        | None =>
            ret (Some (Errorf ("non existant parent '" ++ parentPath
                                 ++ "' for src")))
        | Some parent =>
            err <- rem_removeParent g fileId (Id parent) ;;
            match err with
            | Some e =>
                LogErrf ("removeParent:: " ++ fileId ++ " " ++ relToRootPath
                           ++ " " ++ Error e ++ nl) ;;
                ret None
            | None => ret None
            end
        end)
  end.

(** [func move_(g *Commands, opt *moveOpt) error] *)
Definition move_ (g : Commands) (opt : moveOpt) : Cmd (option error) :=
  match srcFile opt with
  | None =>
      ret (Some (Errorf ("src: '" ++ src opt ++ "' could not be found")))
  | Some remSrc =>
      let newParent := destFile opt in
      r <- (if byId opt then ret None
            else
              let parentPath := parentPather g (src opt) in
              '(oldParents, parErr) <- FindByPath g parentPath ;;
              match hardError parErr with
              | Some e => ret (Some e)
              | None =>
                  rangeReturn oldParents (fun oldParent =>
                    match oldParent with
                    | None => ret None
                    | Some oldParent =>
                        np <- deref "newParent.Id" newParent ;;
                        if String.eqb (Id oldParent) (Id np) then
                          ret (Some (Errorf
                            ("src and dest are the same srcParentId "
                               ++ customQuote (Id oldParent)
                               ++ " destParentId "
                               ++ customQuote (Id np))))
                        else ret None
                    end)
              end) ;;
      match r with
      | Some e => ret (Some e)
      | None =>
          let newFullPath := filepath_Join (dest opt) (Name remSrc) in
          (* Check for a duplicate *)
          '(dupChecks, err) <- FindByPath g newFullPath ;;
          match hardError err with
          | Some e => ret (Some e)
          | None =>
              r <- rangeReturn dupChecks (fun dup =>
                     match dup with
                     | None => ret None
                     | Some dup =>
                         if String.eqb (Id dup) (Id remSrc) then
                           (* Trying to move to self *)
                           ret (Some (Errorf
                             ("move: trying to move fileId:"
                                ++ customQuote (Id dup)
                                ++ " to self fileId:"
                                ++ customQuote (Id remSrc))))
                         else if negb (Force (opts g)) then
                           ret (Some (Errorf
                             (newFullPath ++ " already exists. Use `"
                                ++ ForceKey
                                ++ "` flag to override this behaviour")))
                         else ret None
                     end) ;;
              match r with
              | Some e => ret (Some e)
              | None =>
                  (* Avoid self-nesting *)
                  np <- deref "newParent.Id" newParent ;;
                  if String.eqb (Id remSrc) (Id np) then
                    ret (Some (Errorf ("move: cannot move '" ++ src opt
                                         ++ "' to itself")))
                  else
                    err <- insertParent g (Id remSrc) (Id np) ;;
                    match err with
                    | Some e => ret (Some e)
                    | None =>
                        if byId opt then ret None
                        else removeParent g (Id remSrc) (src opt)
                    end
              end
          end
      end
  end.

(** [func (g *Commands) move(opt *moveOpt) (errs []error)].  The two
    fields [move] writes into [opt] before each call of [move_] are set
    on the record passed down. *)
Definition move (g : Commands) (opt : moveOpt) : Cmd (list error) :=
  let srcResolver := if byId opt then FindByIdMulti g else FindByPath g in
  '(sources, err) <- srcResolver (src opt) ;;
  match err with
  | Some e => ret [Errorf ("src('" ++ src opt ++ "') " ++ Error e)]
  | None =>
      '(newParents, parErr) <- FindByPath g (dest opt) ;;
      match parErr with
      | Some e => ret [Errorf ("dest: '" ++ dest opt ++ "' " ++ Error e)]
      | None =>
          rangeAcc sources (fun errs source =>
            rangeAcc newParents (fun errs newParent =>
              match newParent with
              | Some np =>
                  if IsDir np then
                    err <- move_ g (mkMoveOpt (src opt) (dest opt) (byId opt)
                                      source newParent) ;;
                    match err with
                    | Some e => ret (errs ++ [e])
                    | None => ret errs
                    end
                  else
                    ret (errs ++ [Errorf ("dest: '" ++ dest opt
                                   ++ "' must be an existant folder")])
              | None =>
                  ret (errs ++ [Errorf ("dest: '" ++ dest opt
                                 ++ "' must be an existant folder")])
              end) errs) []
      end
  end.

(** The body of the loop of [Move] over the sources before the last
    argument; [Some e] is [return e]. *)
Fixpoint Move_loop (g : Commands) (byId : bool) (dest : string)
  (rest : list string) : Cmd (option error) :=
  match rest with
  | [] => ret None
  | src :: rest' =>
      let prefix := commonPrefix src dest in
      (* Trying to nest a parent into its child *)
      if String.eqb prefix src then
        ret (Some (Errorf (src ++ " cannot be nested into " ++ dest)))
      else
        errs <- move g (mkMoveOpt src dest byId None None) ;;
        rangeAcc errs (fun (_ : unit) err =>
          Printf ("move: " ++ src ++ ": " ++ Error err ++ nl)) tt ;;
        Move_loop g byId dest rest'
  end.

(** [func (g *Commands) Move(byId bool) (err error)] *)
Definition Move (g : Commands) (byId : bool) : Cmd (option error) :=
  let argc := length (Sources (opts g)) in
  if Nat.ltb argc 2 then
    ret (Some (Errorf
      ("move: expected <src> [src...] <dest>, instead got: "
         ++ fmtStrings (Sources (opts g)))))
  else
    let rest := removelast (Sources (opts g)) in
    let dest := last (Sources (opts g)) EmptyString in
    Move_loop g byId dest rest.

(** [func rename_(g *Commands, src string, remSrc *File, byId bool) error].
    The variable [err] is the one the loop reassigns with the result of
    [g.rem.rename]; it is what the function returns. *)
Definition rename_ (g : Commands) (src : string) (remSrc : option File)
  (byId : bool) : Cmd (option error) :=
  let parentPath :=
    if negb byId then parentPather g src else Path (opts g) in
  match nth_error (Sources (opts g)) 1 with
  | None => panic "index out of range [1]"
  | Some newName =>
      let urlBoundName := urlToPath newName true in
      let newFullPath := filepath_Join parentPath urlBoundName in
      '(dupChecks, err) <- FindByPath g newFullPath ;;
      match err, dupChecks with
      | None, _ :: _ =>
          rangeAcc dupChecks (fun err dup =>
            d <- deref "dup.Id" dup ;;
            s <- deref "remSrc.Id" remSrc ;;
            if String.eqb (Id d) (Id s) then
              (* Trying to rename self *)
              ret err
            else if negb (Force (opts g)) then
              LogErrf (newFullPath ++ " already exists. Use `" ++ ForceKey
                         ++ "` flag to override this behaviour") ;;
              ret err
            else
              '(_, err') <- rem_rename g (Id s) newName ;;
              match err' with
              | Some e =>
                  LogErrf ("rename: " ++ Id s ++ " " ++ newName ++ " "
                             ++ Error e ++ nl) ;;
                  ret err'
              | None => ret err'
              end) err
      | _, _ => ret err
      end
  end.

(** The loop of [Rename] over the resolved sources. *)
Definition Rename_loop (g : Commands) (src : string) (byId : bool)
  (remoteSources : list (option File)) : Cmd unit :=
  rangeAcc remoteSources (fun (_ : unit) remSrc =>
    match remSrc with
    | None => LogErrf (src ++ " does not exist")
    | Some _ => ret tt
    end ;;
    err <- rename_ g src remSrc byId ;;
    match err with
    | Some e => LogErrf (src ++ " " ++ Error e ++ nl)
    | None => ret tt
    end) tt.

(** [func (g *Commands) Rename(byId bool) error] *)
Definition Rename (g : Commands) (byId : bool) : Cmd (option error) :=
  if Nat.ltb (length (Sources (opts g))) 2 then
    ret (Some (Errorf "rename: expecting <src> <newname>"))
  else
    match Sources (opts g) with
    | [] => panic "index out of range [0]"
    | src :: _ =>
        let resolver := if byId then FindByIdMulti g else FindByPath g in
        '(remoteSources, err) <- resolver src ;;
        match err with
        | Some e => ret (Some (Errorf (src ++ ": " ++ Error e)))
        | None =>
            Rename_loop g src byId remoteSources ;;
            ret None
        end
    end.

(** *** copy.go *)

(** The body of the loop of [copy] over the objects found at the
    destination path.  It updates [parentId] and [destBase], which stay
    changed for the entries that follow, and the two result slices. *)
Definition copyEach (g : Commands) (src : File)
  (vars : string * string * list (option File) * list error)
  (destFile : option File)
  : Cmd (string * string * list (option File) * list error) :=
  let '(parentId, destBase, copies, errs) := vars in
  let '(parentId, destBase) :=
    match destFile with
    | Some df => if IsDir df then (Id df, Name src) else (parentId, destBase)
    | None => (parentId, destBase)
    end in
  '(cp, cpErr) <- rem_copy g destBase parentId src ;;
  let copies :=
    match cp with
    | Some _ => copies ++ [cp]
    | None => copies
    end in
  let errs :=
    match cpErr with
    | Some e => errs ++ [e]
    | None => errs
    end in
  ret (parentId, destBase, copies, errs).

(** [func (g *Commands) copy(src *File, destPath string)
      (copies []*File, errs []error)].
    The recursion follows the remote directory tree, so it is bounded by
    [fuel]; a leaf source needs none. *)
Fixpoint copy (fuel : nat) (g : Commands) (src : option File)
  (destPath : string) : Cmd (list (option File) * list error) :=
  match src with
  | None => ret ([], [Errorf "non existant src"])
  | Some src =>
      if negb (IsDir src) then
        if negb (Copyable src) then
          ret ([], [Errorf (Name src ++ " is non-copyable")])
        else
          let '(destDir, destBase) := pathSplitter g destPath in
          '(destParent, destParErr) <- mkdirAll g destDir ;;
          match destParErr with
          | Some e => ret ([], [e])
          | None =>
              dp <- deref "destParent.Id" destParent ;;
              '(destFiles, destErr) <- FindByPath g destPath ;;
              match hardError destErr with
              | Some e => ret ([], [e])
              | None =>
                  '(_, _, copies, errs) <-
                    rangeAcc destFiles (copyEach g src)
                      (Id dp, destBase, [], []) ;;
                  ret (copies, errs)
              end
          end
      else
        match fuel with
        | O => outOfFuel
        | S fuel' =>
            '(destFile, destErr) <- mkdirAll g destPath ;;
            match destErr with
            | Some e => ret ([], [e])
            | None =>
                children <- findChildren g (Id src) false ;;
                rangeAcc children (fun (_ : unit) child =>
                  c <- deref "child.Name" child ;;
                  let chName := sepJoin "/" [destPath; Name c] in
                  '(_, chErr) <- copy fuel' g child chName ;;
                  match chErr with
                  | [] => ret tt
                  | _ :: _ =>
                      LogErrf ("copy: " ++ chName ++ ": " ++ fmtErrors chErr
                                 ++ nl)
                  end) tt ;;
                ret ([destFile], [])
            end
        end
  end.

(** [func copy_(g *Commands, dest string, destFile *File, sources []string,
      byId bool) (errs []error)].
    The goroutines started for the resolved sources are run here one after
    the other in the order they are started, which is one of the schedules
    of the source; the function returns after all of them reported. *)
Definition copy_ (fuel : nat) (g : Commands) (dest : string)
  (destFile : option File) (sources : list string) (byId : bool)
  : Cmd (list error) :=
  let multiPaths := Nat.ltb 1 (length sources) in
  let notDir :=
    match destFile with
    | Some df => negb (IsDir df)
    | None => false
    end in
  if multiPaths && notDir then
    ret [Errorf (dest ++ ": " ++ Error ErrPathNotDir)]
  else
    r <- (if multiPaths then
            '(_, err) <- mkdirAll g dest ;; ret err
          else ret None) ;;
    match r with
    | Some e => ret [e]
    | None =>
        let srcResolver := if byId then FindByIdMulti g else FindByPath g in
        rangeAcc sources (fun (_ : unit) srcPath =>
          '(srcFiles, srcErr) <- srcResolver srcPath ;;
          match srcErr with
          | Some e => LogErrf (srcPath ++ ": " ++ Error e ++ nl)
          | None =>
              rangeAcc srcFiles (fun (_ : unit) srcFile =>
                '(_, copyErr) <- copy fuel g srcFile dest ;;
                match copyErr with
                | [] => ret tt
                | _ :: _ =>
                    LogErrf (srcPath ++ ": " ++ fmtErrors copyErr ++ nl)
                end) tt
          end) tt ;;
        ret []
    end.

(** [func (g *Commands) Copy(byId bool) error].  The progress spinner
    ([g.playabler]) touches neither the store nor the log and is left out. *)
Definition Copy (fuel : nat) (g : Commands) (byId : bool)
  : Cmd (option error) :=
  let argc := length (Sources (opts g)) in
  if Nat.ltb argc 2 then
    ret (Some (Errorf ("expecting src [src1....] dest got: "
                         ++ fmtStrings (Sources (opts g)))))
  else
    Logln "Processing..." ;;
    let sources := removelast (Sources (opts g)) in
    let dest := last (Sources (opts g)) EmptyString in
    '(destFiles, err) <- FindByPath g dest ;;
    match hardError err with
    | Some e =>
        ret (Some (Errorf ("destination: " ++ dest ++ " err: " ++ Error e)))
    | None =>
        rangeAcc destFiles (fun (_ : unit) destFile =>
          match destFile with
          | None => ret tt
          | Some df =>
              errs <- copy_ fuel g dest destFile sources byId ;;
              rangeAcc errs (fun (_ : unit) err =>
                LogErrf ("copy_: " ++ Id df ++ " " ++ Error err ++ nl)) tt
          end) tt ;;
        ret None
    end.

(** The line [Move] prints for an error of the pair of [src]. *)
Definition movePrint (src : string) (err : error) : Event :=
  EvPrintf ("move: " ++ src ++ ": " ++ Error err ++ nl).

(** The error [Move] returns when [dest] lies under [src]. *)
Definition nestedErr (src dest : string) : error :=
  Errorf (src ++ " cannot be nested into " ++ dest).

(** *** Pure views of the checks, used to state what the code does

    The loops of [move_] before [insertParent] only read their arguments;
    the functions below compute their verdicts, and [move__run] proves that
    [move_] is the composition they describe. *)

(** The verdict of a loop that returns at the first error. *)
Fixpoint firstErr {A} (f : A -> option error) (xs : list A) : option error :=
  match xs with
  | [] => None
  | x :: xs' =>
      match f x with
      | Some e => Some e
      | None => firstErr f xs'
      end
  end.

Definition sameParentView (np : File) (oldParent : option File)
  : option error :=
  match oldParent with
  | None => None
  | Some oldParent =>
      if String.eqb (Id oldParent) (Id np) then
        Some (Errorf ("src and dest are the same srcParentId "
                        ++ customQuote (Id oldParent) ++ " destParentId "
                        ++ customQuote (Id np)))
      else None
  end.

Definition selfMoveErr (dup remSrc : File) : error :=
  Errorf ("move: trying to move fileId:" ++ customQuote (Id dup)
            ++ " to self fileId:" ++ customQuote (Id remSrc)).

Definition duplicateErr (newFullPath : string) : error :=
  Errorf (newFullPath ++ " already exists. Use `" ++ ForceKey
            ++ "` flag to override this behaviour").

Definition dupView (g : Commands) (remSrc : File) (newFullPath : string)
  (dup : option File) : option error :=
  match dup with
  | None => None
  | Some dup =>
      if String.eqb (Id dup) (Id remSrc) then Some (selfMoveErr dup remSrc)
      else if negb (Force (opts g)) then Some (duplicateErr newFullPath)
      else None
  end.

(** What [move_] decides, and which lookups it makes, before it changes
    anything: [Some e] is the error it returns. *)
Definition precheck (g : Commands) (opt : moveOpt) (remSrc np : File)
  (s : St) : option error * list Event :=
  let parentPath := parentPather g (src opt) in
  let newFullPath := filepath_Join (dest opt) (Name remSrc) in
  let ev1 := if byId opt then [] else [EvFindByPath parentPath] in
  let r1 :=
    if byId opt then None
    else
      match hardError (snd (Remote.FindByPath (rem g) parentPath s)) with
      | Some e => Some e
      | None =>
          firstErr (sameParentView np)
                   (fst (Remote.FindByPath (rem g) parentPath s))
      end in
  match r1 with
  | Some e => (Some e, ev1)
  | None =>
      let ev2 := ev1 ++ [EvFindByPath newFullPath] in
      match hardError (snd (Remote.FindByPath (rem g) newFullPath s)) with
      | Some e => (Some e, ev2)
      | None =>
          match firstErr (dupView g remSrc newFullPath)
                         (fst (Remote.FindByPath (rem g) newFullPath s)) with
          | Some e => (Some e, ev2)
          | None =>
              if String.eqb (Id remSrc) (Id np) then
                (Some (Errorf ("move: cannot move '" ++ src opt
                                 ++ "' to itself")), ev2)
              else (None, ev2)
          end
      end
  end.

(** The store and the events after [g.removeParent] went through the
    resolved old parents [ps]. *)
Fixpoint removeAll (g : Commands) (fileId relToRootPath : string)
  (ps : list File) (s : St) : St * list Event :=
  match ps with
  | [] => (s, [])
  | p :: ps' =>
      let '(err, s') := Remote.removeParent (rem g) fileId (Id p) s in
      let '(sN, evs) := removeAll g fileId relToRootPath ps' s' in
      (sN,
       EvRemoveParent fileId (Id p) err
         :: match err with
            | Some e =>
                [EvLogErrf ("removeParent:: " ++ fileId ++ " "
                              ++ relToRootPath ++ " " ++ Error e ++ nl)]
            | None => []
            end ++ evs)
  end.

(** The events of a verb that only resolves paths and edits parent edges:
    lookups by path or identifier, [insertParent], [removeParent] and the
    lines it logs or prints. *)
Definition edge_event (ev : Event) : bool :=
  match ev with
  | EvFindByPath _ | EvFindByIdMulti _ | EvInsertParent _ _ _
  | EvRemoveParent _ _ _ | EvLogErrf _ | EvPrintf _ => true
  | _ => false
  end.

Definition is_removeParent (ev : Event) : bool :=
  match ev with
  | EvRemoveParent _ _ _ => true
  | _ => false
  end.

(** The two errors [move] makes for a pair it does not hand to the store. *)
Definition notAFolderErr (dest : string) : error :=
  Errorf ("dest: '" ++ dest ++ "' must be an existant folder").

Definition srcNotFoundErr (src : string) : error :=
  Errorf ("src: '" ++ src ++ "' could not be found").

(** A resolved destination [move] can move into. *)
Definition isFolder (np : option File) : bool :=
  match np with
  | Some d => IsDir d
  | None => false
  end.

(** The events of a verb that only renames: lookups, the store's rename
    and log lines. *)
Definition rename_event (ev : Event) : bool :=
  match ev with
  | EvFindByPath _ | EvFindByIdMulti _ | EvRename _ _ _ | EvLogErrf _ => true
  | _ => false
  end.

(** The path at which [rename_] looks for a duplicate. *)
Definition renameTarget (g : Commands) (src : string) (byId : bool)
  (newName : string) : string :=
  filepath_Join (if negb byId then parentPather g src else Path (opts g))
                (urlToPath newName true).

(** The events of one forced rename call that returned [res]. *)
Definition renameCall (fileId newName : string) (res : option error)
  : list Event :=
  EvRename fileId newName res
    :: match res with
       | Some e =>
           [EvLogErrf ("rename: " ++ fileId ++ " " ++ newName ++ " "
                         ++ Error e ++ nl)]
       | None => []
       end.

(** The events of a verb that only copies: lookups, listing of children,
    the store's copy, directory creation and log lines. *)
Definition copy_event (ev : Event) : bool :=
  match ev with
  | EvFindByPath _ | EvFindByIdMulti _ | EvFindChildren _ | EvCopy _ _ _ _
  | EvMkdirAll _ _ | EvLogln _ | EvLogErrf _ => true
  | _ => false
  end.

(** What [Copy] logs for a resolved destination that is not a directory
    when several sources are given. *)
Definition notDirLines (dest : string) (destFile : option File)
  : list Event :=
  match destFile with
  | Some df =>
      [EvLogErrf ("copy_: " ++ Id df ++ " " ++ (dest ++ ": not a directory")
                    ++ nl)]
  | None => []
  end.

(** The path [copy] creates before anything else: the destination itself
    for a directory source, its parent for a leaf. *)
Definition copyMkdirTarget (g : Commands) (src : File) (destPath : string)
  : string :=
  if IsDir src then destPath else fst (pathSplitter g destPath).

(** What [Rename] leaves for the resolved source [f] when the force flag
    is off and the lookup of the new path gave [ds] and [err]: the
    lookup, then either a line for every object found that is not [f], or
    the line for the error of the lookup. *)
Definition unforcedLines (g : Commands) (src : string) (byId : bool)
  (newName : string) (ds : list File) (err : option error) (f : File)
  : list Event :=
  EvFindByPath (renameTarget g src byId newName)
    :: match err with
       | None =>
           flat_map (fun d =>
             if String.eqb (Id d) (Id f) then []
             else [EvLogErrf (renameTarget g src byId newName
                                ++ " already exists. Use `" ++ ForceKey
                                ++ "` flag to override this behaviour")])
             ds
       | Some e => [EvLogErrf (src ++ " " ++ Error e ++ nl)]
       end.

(** What [Copy] leaves for a resolved destination when its single source
    fails to resolve with [e]: the lookup of the source and the line for
    its error; a nil destination is skipped. *)
Definition unresolvedLines (src : string) (byId : bool) (e : error)
  (destFile : option File) : list Event :=
  match destFile with
  | Some _ =>
      [if byId then EvFindByIdMulti src else EvFindByPath src;
       EvLogErrf (src ++ ": " ++ Error e ++ nl)]
  | None => []
  end.

(** The line a directory copy logs for a child that may not be copied. *)
Definition childLine (destPath : string) (c : File) : Event :=
  EvLogErrf ("copy: " ++ sepJoin "/" [destPath; Name c] ++ ": "
               ++ fmtErrors [Errorf (Name c ++ " is non-copyable")] ++ nl).

(** ** Facts about the command monad *)

Lemma bind_run {A B} (m : Cmd A) (f : A -> Cmd B) s a s1 ev1 :
  m s = mkRes (Done a) s1 ev1 ->
  bind m f s
  = mkRes (outcome (f a s1)) (final (f a s1)) (ev1 ++ events (f a s1)).
Proof. intros H. unfold bind. rewrite H. reflexivity. Qed.

Lemma bind_done {A B} (m : Cmd A) (f : A -> Cmd B) s a :
  outcome (m s) = Done a ->
  bind m f s
  = mkRes (outcome (f a (final (m s)))) (final (f a (final (m s))))
          (events (m s) ++ events (f a (final (m s)))).
Proof. intros H. unfold bind. rewrite H. reflexivity. Qed.


Lemma bind_emit {B} e (f : unit -> Cmd B) s :
  bind (emit e) f s
  = mkRes (outcome (f tt s)) (final (f tt s)) (e :: events (f tt s)).
Proof. reflexivity. Qed.

Lemma bind_ret_l {A B} (a : A) (f : A -> Cmd B) s : bind (ret a) f s = f a s.
Proof. unfold bind, ret; simpl. destruct (f a s); reflexivity. Qed.

Lemma bind_query {A B} e (q : St -> A) (f : A -> Cmd B) s :
  bind (query e q) f s
  = mkRes (outcome (f (q s) s)) (final (f (q s) s)) (e :: events (f (q s) s)).
Proof. reflexivity. Qed.

Lemma total_ret {A} (a : A) : total (ret (St := St) a).
Proof. intros s. exists a. reflexivity. Qed.

Lemma total_bind {A B} (m : Cmd A) (f : A -> Cmd B) :
  total m -> (forall a, total (f a)) -> total (bind m f).
Proof.
  intros Hm Hf s. destruct (Hm s) as [a Ha].
  rewrite (bind_done _ _ _ _ Ha). simpl. apply Hf.
Qed.

Lemma total_query {A} e (f : St -> A) : total (query e f).
Proof. intros s. eexists. reflexivity. Qed.

Lemma total_emit e : total (emit (St := St) e).
Proof. intros s. eexists. reflexivity. Qed.

Lemma total_rangeReturn {A} (body : A -> Cmd (option error)) :
  (forall x, total (body x)) -> forall xs, total (rangeReturn xs body).
Proof.
  intros Hb xs. induction xs as [|x xs IH]; simpl.
  - apply total_ret.
  - apply total_bind; [apply Hb|]. intros [e|]; [apply total_ret | exact IH].
Qed.

Lemma total_rangeAcc {A B} (body : B -> A -> Cmd B) :
  (forall acc x, total (body acc x)) ->
  forall xs acc, total (rangeAcc xs body acc).
Proof.
  intros Hb xs. induction xs as [|x xs IH]; intros acc; simpl.
  - apply total_ret.
  - apply total_bind; [apply Hb | intros acc'; apply IH].
Qed.

(** ** The store calls always return *)

Lemma total_FindByPath g p : total (FindByPath g p).
Proof. apply total_query. Qed.

Lemma total_FindByIdMulti g p : total (FindByIdMulti g p).
Proof. apply total_query. Qed.

Lemma total_insertParent g f p : total (insertParent g f p).
Proof.
  intros s. unfold insertParent.
  destruct (Remote.insertParent (rem g) f p s). eexists. reflexivity.
Qed.

Lemma total_rem_removeParent g f p : total (rem_removeParent g f p).
Proof.
  intros s. unfold rem_removeParent.
  destruct (Remote.removeParent (rem g) f p s). eexists. reflexivity.
Qed.

Lemma total_removeParent g f p : total (removeParent g f p).
Proof.
  unfold removeParent. apply total_bind; [apply total_FindByPath|].
  intros [parents [e|]]; [apply total_ret|].
  apply total_rangeReturn. intros [parent|]; [|apply total_ret].
  apply total_bind; [apply total_rem_removeParent|].
  intros [e|]; [|apply total_ret].
  apply total_bind; [apply total_emit | intros _; apply total_ret].
Qed.

(** [move_] never panics when it is given a destination, which is how
    [move] calls it. *)
Lemma total_move_ g opt np : destFile opt = Some np -> total (move_ g opt).
Proof.
  intros Hd. unfold move_. rewrite Hd.
  destruct (srcFile opt) as [remSrc|]; [|apply total_ret].
  apply total_bind.
  - destruct (byId opt); [apply total_ret|].
    apply total_bind; [apply total_FindByPath|].
    intros [oldParents parErr]. destruct (hardError parErr); [apply total_ret|].
    apply total_rangeReturn. intros [oldParent|]; [|apply total_ret].
    apply total_bind; [apply total_ret|]. intros f.
    destruct (String.eqb (Id oldParent) (Id f)); apply total_ret.
  - intros [e|]; [apply total_ret|].
    apply total_bind; [apply total_FindByPath|].
    intros [dupChecks err]. destruct (hardError err); [apply total_ret|].
    apply total_bind.
    + apply total_rangeReturn. intros [dup|]; [|apply total_ret].
      destruct (String.eqb (Id dup) (Id remSrc)); [apply total_ret|].
      destruct (negb (Force (opts g))); apply total_ret.
    + intros [e|]; [apply total_ret|].
      apply total_bind; [apply total_ret|]. intros f.
      destruct (String.eqb (Id remSrc) (Id f)); [apply total_ret|].
      apply total_bind; [apply total_insertParent|].
      intros [e|]; [apply total_ret|].
      destruct (byId opt); [apply total_ret | apply total_removeParent].
Qed.

Lemma total_move g opt : total (move g opt).
Proof.
  unfold move. apply total_bind.
  - destruct (byId opt); [apply total_FindByIdMulti | apply total_FindByPath].
  - intros [sources [e|]]; [apply total_ret|].
    apply total_bind; [apply total_FindByPath|].
    intros [newParents [e|]]; [apply total_ret|].
    apply total_rangeAcc. intros errs source.
    apply total_rangeAcc. clear errs. intros errs [np|]; [|apply total_ret].
    destruct (IsDir np); [|apply total_ret].
    apply total_bind; [apply (total_move_ _ _ np); reflexivity|].
    intros [e|]; apply total_ret.
Qed.

(** ** Move: the loop over the sources *)

Lemma printErrs_run src errs s :
  rangeAcc errs (fun (_ : unit) err =>
    Printf ("move: " ++ src ++ ": " ++ Error err ++ nl)) tt s
  = mkRes (Done tt) s (map (movePrint src) errs).
Proof.
  revert s. induction errs as [|e errs IH]; intros s; simpl.
  - reflexivity.
  - unfold bind at 1. simpl. rewrite IH. reflexivity.
Qed.

Lemma Move_loop_cons_nested g byId dest src rest s :
  commonPrefix src dest = src ->
  Move_loop g byId dest (src :: rest) s
  = mkRes (Done (Some (nestedErr src dest))) s [].
Proof.
  intros H. simpl. rewrite H, String.eqb_refl. reflexivity.
Qed.

Lemma Move_loop_cons_ok g byId dest src rest s errs :
  commonPrefix src dest <> src ->
  outcome (move g (mkMoveOpt src dest byId None None) s) = Done errs ->
  Move_loop g byId dest (src :: rest) s
  = let r1 := move g (mkMoveOpt src dest byId None None) s in
    let r2 := Move_loop g byId dest rest (final r1) in
    mkRes (outcome r2) (final r2)
          (events r1 ++ map (movePrint src) errs ++ events r2).
Proof.
  intros Hn Hm. simpl.
  destruct (String.eqb (commonPrefix src dest) src) eqn:E.
  - apply String.eqb_eq in E. contradiction.
  - rewrite (bind_done _ _ _ _ Hm).
    rewrite (bind_run _ _ _ _ _ _ (printErrs_run src errs _)). simpl.
    reflexivity.
Qed.

Lemma Move_loop_returns_nil g byId dest rest :
  Forall (fun src => commonPrefix src dest <> src) rest ->
  forall s, outcome (Move_loop g byId dest rest s) = Done None.
Proof.
  induction 1 as [|src rest Hn _ IH]; intros s.
  - reflexivity.
  - destruct (total_move g (mkMoveOpt src dest byId None None) s) as [errs He].
    rewrite (Move_loop_cons_ok _ _ _ _ _ _ _ Hn He). simpl. apply IH.
Qed.

(** Every source of a batch without nesting is handed to [move], in the
    store left by the sources before it, and its errors are printed. *)
Lemma Move_loop_split g byId dest pre src post :
  Forall (fun x => commonPrefix x dest <> x) (pre ++ src :: post) ->
  forall s,
    let r0 := Move_loop g byId dest pre s in
    let r1 := move g (mkMoveOpt src dest byId None None) (final r0) in
    exists errs evs,
      outcome r1 = Done errs /\
      events (Move_loop g byId dest (pre ++ src :: post) s)
      = events r0 ++ events r1 ++ map (movePrint src) errs ++ evs.
Proof.
  induction pre as [|x pre IH]; intros HF s; simpl app in *.
  - inversion HF as [|? ? Hn HF']; subst.
    destruct (total_move g (mkMoveOpt src dest byId None None) s) as [errs He].
    exists errs, (events (Move_loop g byId dest post
                     (final (move g (mkMoveOpt src dest byId None None) s)))).
    split; [exact He|].
    rewrite (Move_loop_cons_ok _ _ _ _ _ _ _ Hn He). reflexivity.
  - inversion HF as [|? ? Hn HF']; subst.
    destruct (total_move g (mkMoveOpt x dest byId None None) s) as [errs0 He0].
    rewrite !(Move_loop_cons_ok _ _ _ _ _ _ _ Hn He0). cbv zeta. simpl.
    destruct (IH HF' (final (move g (mkMoveOpt x dest byId None None) s)))
      as (errs & evs & He & Hev).
    exists errs, evs. split; [exact He|].
    rewrite Hev. rewrite <- !app_assoc. reflexivity.
Qed.

(** A source is handed to [move] as soon as neither it nor a source before
    it is nested in the destination, whatever comes after it. *)
Lemma Move_loop_reaches g byId dest pre src post :
  Forall (fun x => commonPrefix x dest <> x) pre ->
  commonPrefix src dest <> src ->
  forall s,
    let r0 := Move_loop g byId dest pre s in
    let r1 := move g (mkMoveOpt src dest byId None None) (final r0) in
    exists errs evs,
      outcome r1 = Done errs /\
      events (Move_loop g byId dest (pre ++ src :: post) s)
      = events r0 ++ events r1 ++ map (movePrint src) errs ++ evs.
Proof.
  intros HF Hn. induction HF as [|x pre Hx _ IH]; intros s; simpl app.
  - destruct (total_move g (mkMoveOpt src dest byId None None) s) as [errs He].
    exists errs, (events (Move_loop g byId dest post
                     (final (move g (mkMoveOpt src dest byId None None) s)))).
    split; [exact He|].
    rewrite (Move_loop_cons_ok _ _ _ _ _ _ _ Hn He). reflexivity.
  - destruct (total_move g (mkMoveOpt x dest byId None None) s) as [errs0 He0].
    rewrite !(Move_loop_cons_ok _ _ _ _ _ _ _ Hx He0). cbv zeta. simpl.
    destruct (IH (final (move g (mkMoveOpt x dest byId None None) s)))
      as (errs & evs & He & Hev).
    exists errs, evs. split; [exact He|].
    rewrite Hev. rewrite <- !app_assoc. reflexivity.
Qed.

(** Once the loop meets a source the destination lies under, it returns;
    what it did is what it did for the sources before that one. *)
Lemma Move_loop_stop g byId dest pre src post :
  commonPrefix src dest = src ->
  forall s,
    let r := Move_loop g byId dest (pre ++ src :: post) s in
    let r0 := Move_loop g byId dest pre s in
    (exists e, outcome r = Done (Some e)) /\
    final r = final r0 /\
    events r = events r0 /\
    (Forall (fun x => commonPrefix x dest <> x) pre ->
     outcome r = Done (Some (nestedErr src dest))).
Proof.
  intros Hs. induction pre as [|x pre IH]; intros s; simpl app.
  - rewrite (Move_loop_cons_nested _ _ _ _ _ _ Hs). simpl.
    repeat split; eauto.
  - destruct (String.eqb (commonPrefix x dest) x) eqn:E.
    + apply String.eqb_eq in E.
      rewrite !(Move_loop_cons_nested _ _ _ _ _ _ E). simpl.
      repeat split; eauto.
      intros HF. inversion HF; subst. contradiction.
    + apply String.eqb_neq in E.
      destruct (total_move g (mkMoveOpt x dest byId None None) s) as [errs He].
      rewrite !(Move_loop_cons_ok _ _ _ _ _ _ _ E He). cbv zeta. simpl.
      destruct (IH (final (move g (mkMoveOpt x dest byId None None) s)))
        as (Ho & Hf & Hev & Hn).
      repeat split; auto.
      * rewrite Hev. reflexivity.
      * intros HF. inversion HF; subst. auto.
Qed.

Lemma Move_unfold g byId rest dest s :
  Sources (opts g) = rest ++ [dest] -> rest <> [] ->
  Move g byId s = Move_loop g byId dest rest s.
Proof.
  intros HS Hne. unfold Move. rewrite HS.
  rewrite removelast_last, last_last.
  destruct rest as [|x rest]; [contradiction|].
  assert (E : Nat.ltb (length ((x :: rest) ++ [dest])) 2 = false).
  { apply Nat.ltb_ge. rewrite length_app. simpl. lia. }
  rewrite E. reflexivity.
Qed.

(** ** move_: the checks before the first mutation *)

Lemma rangeReturn_firstErr {A} (body : A -> Cmd (option error))
  (f : A -> option error) :
  (forall x s, body x s = mkRes (Done (f x)) s []) ->
  forall xs s, rangeReturn xs body s = mkRes (Done (firstErr f xs)) s [].
Proof.
  intros Hb xs. induction xs as [|x xs IH]; intros s; simpl.
  - reflexivity.
  - rewrite (bind_run _ _ _ _ _ _ (Hb x s)). destruct (f x); simpl.
    + reflexivity.
    + rewrite IH. reflexivity.
Qed.

Lemma precheck_events g opt remSrc np s :
  Forall (fun ev => is_mutation ev = false) (snd (precheck g opt remSrc np s)).
Proof.
  unfold precheck.
  destruct (byId opt);
    repeat match goal with
           | |- context [match ?x with _ => _ end] => destruct x
           end; simpl; repeat constructor.
Qed.

Lemma move__run g opt remSrc np s :
  srcFile opt = Some remSrc -> destFile opt = Some np ->
  move_ g opt s
  = match precheck g opt remSrc np s with
    | (Some e, ev) => mkRes (Done (Some e)) s ev
    | (None, ev) =>
        let r :=
          bind (insertParent g (Id remSrc) (Id np)) (fun err =>
            match err with
            | Some e => ret (Some e)
            | None =>
                if byId opt then ret None
                else removeParent g (Id remSrc) (src opt)
            end) s in
        mkRes (outcome r) (final r) (ev ++ events r)
    end.
Proof.
  intros Hs Hd. unfold move_, precheck. rewrite Hs, Hd.
  unfold FindByPath.
  assert (Hold : forall xs s0,
    rangeReturn xs (fun oldParent : option File =>
      match oldParent with
      | Some oldParent0 =>
          bind (deref "newParent.Id" (Some np)) (fun np0 =>
            if String.eqb (Id oldParent0) (Id np0) then
              ret (Some (Errorf ("src and dest are the same srcParentId "
                                   ++ customQuote (Id oldParent0)
                                   ++ " destParentId "
                                   ++ customQuote (Id np0))))
            else ret None)
      | None => ret None
      end) s0
    = mkRes (St := St) (Done (firstErr (sameParentView np) xs)) s0 []).
  { apply (rangeReturn_firstErr _ (sameParentView np)).
    intros [d|] s0; simpl; [|reflexivity].
    rewrite bind_ret_l.
    destruct (String.eqb (Id d) (Id np)); reflexivity. }
  (* the old-parent block *)
  rewrite (bind_run _ _ s
    (if byId opt then None
     else match hardError (snd (Remote.FindByPath (rem g)
                                  (parentPather g (src opt)) s)) with
          | Some e => Some e
          | None => firstErr (sameParentView np)
                      (fst (Remote.FindByPath (rem g)
                              (parentPather g (src opt)) s))
          end)
    s (if byId opt then [] else [EvFindByPath (parentPather g (src opt))])).
  2:{ destruct (byId opt); [reflexivity|]. rewrite bind_query.
      destruct (Remote.FindByPath (rem g) (parentPather g (src opt)) s)
        as [ops perr]. cbn [fst snd].
      destruct (hardError perr); [reflexivity|].
      rewrite Hold. reflexivity. }
  match goal with
  | |- context [if byId opt then None else ?x] =>
      destruct (if byId opt then None else x);
      [cbn; rewrite app_nil_r; reflexivity|]
  end.
  (* the duplicate scan *)
  rewrite !bind_query.
  destruct (Remote.FindByPath (rem g)
              (filepath_Join (dest opt) (Name remSrc)) s)
    as [dups err]. cbn [fst snd].
  destruct (hardError err).
  { cbn; try rewrite app_nil_r; reflexivity. }
  erewrite bind_run.
  2:{ apply (rangeReturn_firstErr _
            (dupView g remSrc (filepath_Join (dest opt) (Name remSrc)))).
      intros [d|] s0; simpl; [|reflexivity].
      destruct (String.eqb (Id d) (Id remSrc)); [reflexivity|].
      destruct (negb (Force (opts g))); reflexivity. }
  destruct (firstErr _ dups).
  { cbn; try rewrite app_nil_r; reflexivity. }
  cbn [deref]. rewrite !bind_ret_l.
  destruct (String.eqb (Id remSrc) (Id np)).
  { cbn; try rewrite app_nil_r; reflexivity. }
  cbn [outcome final events app].
  rewrite <- app_assoc. reflexivity.
Qed.


Lemma firstErr_dup_self g remSrc p dups dup :
  In (Some dup) dups -> Id dup = Id remSrc ->
  exists e, firstErr (dupView g remSrc p) dups = Some e.
Proof.
  intros Hin Hid. induction dups as [|[d|] dups IH]; simpl.
  - contradiction.
  - destruct (String.eqb (Id d) (Id remSrc)) eqn:E; [eexists; reflexivity|].
    destruct (negb (Force (opts g))); [eexists; reflexivity|].
    apply IH. destruct Hin as [Hin|Hin]; [|exact Hin].
    inversion Hin; subst. rewrite Hid, String.eqb_refl in E. discriminate.
  - apply IH. destruct Hin as [Hin|Hin]; [discriminate | exact Hin].
Qed.



(** ** removeParent: every resolved old parent is tried *)

Lemma removeParent_run g fileId relToRootPath ps s :
  Remote.FindByPath (rem g) (parentPather g relToRootPath) s
  = (map Some ps, None) ->
  removeParent g fileId relToRootPath s
  = mkRes (Done None)
          (fst (removeAll g fileId relToRootPath ps s))
          (EvFindByPath (parentPather g relToRootPath)
             :: snd (removeAll g fileId relToRootPath ps s)).
Proof.
  intros HF. unfold removeParent, FindByPath. rewrite bind_query, HF.
  cbn iota beta.
  match goal with
  | |- context [rangeReturn _ ?b] =>
      assert (HL : forall ps s,
        rangeReturn (map Some ps) b s
        = mkRes (Done None) (fst (removeAll g fileId relToRootPath ps s))
                (snd (removeAll g fileId relToRootPath ps s)))
  end.
  { clear. intros ps. induction ps as [|p ps IH]; intros s; simpl.
    - reflexivity.
    - destruct (Remote.removeParent (rem g) fileId (Id p) s)
        as [err s'] eqn:E.
      rewrite (bind_run _ _ s None s'
        (EvRemoveParent fileId (Id p) err
           :: match err with
              | Some e =>
                  [EvLogErrf ("removeParent:: " ++ fileId ++ " "
                                ++ relToRootPath ++ " " ++ Error e ++ nl)]
              | None => []
              end)).
      2:{ unfold bind, rem_removeParent. cbn beta. rewrite E.
          destruct err; reflexivity. }
      cbn iota beta. rewrite IH.
      destruct (removeAll g fileId relToRootPath ps s') as [sN evs].
      reflexivity. }
  rewrite HL. reflexivity.
Qed.

Lemma removeAll_attempts g fileId path ps :
  forall s p, In p ps ->
  exists res,
    In (EvRemoveParent fileId (Id p) res) (snd (removeAll g fileId path ps s)).
Proof.
  induction ps as [|q ps IH]; intros s p Hin; simpl in *.
  - contradiction.
  - destruct (Remote.removeParent (rem g) fileId (Id q) s) as [err s'].
    specialize (IH s').
    destruct (removeAll g fileId path ps s') as [sN evs]. simpl in *.
    destruct Hin as [->|Hin].
    + exists err. left. reflexivity.
    + destruct (IH p Hin) as [res Hres]. exists res. right.
      apply in_or_app. right. exact Hres.
Qed.

Lemma removeAll_logged g fileId path ps :
  forall s pid e,
    In (EvRemoveParent fileId pid (Some e))
       (snd (removeAll g fileId path ps s)) ->
    In (EvLogErrf ("removeParent:: " ++ fileId ++ " " ++ path ++ " "
                     ++ Error e ++ nl))
       (snd (removeAll g fileId path ps s)).
Proof.
  induction ps as [|q ps IH]; intros s pid e Hin; simpl in *.
  - contradiction.
  - destruct (Remote.removeParent (rem g) fileId (Id q) s) as [err s'].
    specialize (IH s').
    destruct (removeAll g fileId path ps s') as [sN evs]. simpl in *.
    destruct Hin as [Hin|Hin].
    + inversion Hin; subst. right. left. reflexivity.
    + right. apply in_or_app. apply in_app_or in Hin.
      destruct Hin as [Hin|Hin].
      * destruct err; simpl in Hin; [|contradiction].
        destruct Hin as [Hin|[]]. discriminate.
      * right. apply (IH pid e Hin).
Qed.

Lemma removeAll_mutations g fileId path ps :
  forall s ev,
    In ev (snd (removeAll g fileId path ps s)) -> is_mutation ev = true ->
    exists p res, In p ps /\ ev = EvRemoveParent fileId (Id p) res.
Proof.
  induction ps as [|q ps IH]; intros s ev Hin Hm; simpl in *.
  - contradiction.
  - destruct (Remote.removeParent (rem g) fileId (Id q) s) as [err s'].
    specialize (IH s').
    destruct (removeAll g fileId path ps s') as [sN evs]. simpl in *.
    destruct Hin as [Hin|Hin].
    + exists q, err. split; [left; reflexivity | symmetry; exact Hin].
    + apply in_app_or in Hin. destruct Hin as [Hin|Hin].
      * destruct err; simpl in Hin; [|contradiction].
        destruct Hin as [Hin|[]]. subst ev. discriminate.
      * destruct (IH ev Hin Hm) as (p & res & Hp & He).
        exists p, res. split; [right; exact Hp | exact He].
Qed.

(** ** One (source, destination) pair of Move *)

(** C1, as the code has it.  When an object found at the exact destination
    path (destination joined with the source's name) has the identity of
    the source, [move_] does not succeed: it returns an error, leaves the
    store as it was and makes no mutating call. *)
Theorem C1_move_onto_itself_is_an_error g opt remSrc np dup s :
  srcFile opt = Some remSrc ->
  destFile opt = Some np ->
  In (Some dup)
     (fst (Remote.FindByPath (rem g)
             (filepath_Join (dest opt) (Name remSrc)) s)) ->
  Id dup = Id remSrc ->
  (exists e, outcome (move_ g opt s) = Done (Some e)) /\
  final (move_ g opt s) = s /\
  Forall (fun ev => is_mutation ev = false) (events (move_ g opt s)).
Proof.
  intros Hs Hd Hin Hid. rewrite (move__run _ _ _ _ _ Hs Hd).
  pose proof (precheck_events g opt remSrc np s) as Hev.
  assert (Hrej : exists e, fst (precheck g opt remSrc np s) = Some e).
  { unfold precheck.
    match goal with
    | |- context [if byId opt then None else ?x] =>
        destruct (if byId opt then None else x)
    end; [eexists; reflexivity|].
    destruct (hardError _); [eexists; reflexivity|].
    destruct (firstErr_dup_self g remSrc
                (filepath_Join (dest opt) (Name remSrc)) _ _ Hin Hid)
      as [e He].
    rewrite He. eexists. reflexivity. }
  destruct Hrej as [e He].
  destruct (precheck g opt remSrc np s) as [[e'|] ev]; simpl in He;
    [|discriminate].
  simpl. repeat split; eauto.
Qed.


(** C6, as the code has it.  In a move by path where [insertParent] was
    called and succeeded and the old parent path, looked up again after
    the insertion, resolves to existing objects only: [move_] reports
    success whatever the [removeParent] store calls return; every resolved
    old parent is tried; a call that fails is logged; and the only mutating
    calls are the insertion and those removals, so nothing undoes the
    inserted edge. *)
Theorem C6_move_failed_removal_is_only_logged g opt remSrc np ps s :
  srcFile opt = Some remSrc ->
  destFile opt = Some np ->
  byId opt = false ->
  In (EvInsertParent (Id remSrc) (Id np) None) (events (move_ g opt s)) ->
  Remote.FindByPath (rem g) (parentPather g (src opt))
    (snd (Remote.insertParent (rem g) (Id remSrc) (Id np) s))
  = (map Some ps, None) ->
  outcome (move_ g opt s) = Done None /\
  (forall p, In p ps ->
     exists res,
       In (EvRemoveParent (Id remSrc) (Id p) res) (events (move_ g opt s))) /\
  (forall pid e,
     In (EvRemoveParent (Id remSrc) pid (Some e)) (events (move_ g opt s)) ->
     In (EvLogErrf ("removeParent:: " ++ Id remSrc ++ " " ++ src opt ++ " "
                      ++ Error e ++ nl))
        (events (move_ g opt s))) /\
  (forall ev, In ev (events (move_ g opt s)) -> is_mutation ev = true ->
     ev = EvInsertParent (Id remSrc) (Id np) None \/
     exists p res, In p ps /\ ev = EvRemoveParent (Id remSrc) (Id p) res).
Proof.
  intros Hs Hd Hb. pose proof (move__run g opt remSrc np s Hs Hd) as Hrun.
  pose proof (precheck_events g opt remSrc np s) as Hev.
  rewrite Forall_forall in Hev.
  destruct (precheck g opt remSrc np s) as [[e|] ev]; simpl in Hev.
  { rewrite Hrun. intros Hin _. simpl in Hin. apply Hev in Hin.
    discriminate. }
  rewrite Hb in Hrun. cbv zeta in Hrun.
  destruct (Remote.insertParent (rem g) (Id remSrc) (Id np) s)
    as [err s1] eqn:E.
  assert (Hins : insertParent g (Id remSrc) (Id np) s
                 = mkRes (Done err) s1
                         [EvInsertParent (Id remSrc) (Id np) err]).
  { unfold insertParent. rewrite E. reflexivity. }
  rewrite (bind_run _ _ _ _ _ _ Hins) in Hrun. cbn [snd].
  destruct err as [e|].
  { cbn in Hrun. rewrite Hrun. intros Hin _. cbn in Hin.
    apply in_app_or in Hin. destruct Hin as [Hin|Hin].
    - apply Hev in Hin. discriminate.
    - destruct Hin as [Hin|[]]. discriminate. }
  intros _ HF. rewrite (removeParent_run _ _ _ _ _ HF) in Hrun.
  cbn [outcome final events app] in Hrun. rewrite Hrun.
  cbn [outcome final events]. split; [reflexivity|]. split; [|split].
  - intros p Hp.
    destruct (removeAll_attempts g (Id remSrc) (src opt) ps s1 p Hp)
      as [res Hres].
    exists res. apply in_or_app. right. right. right. exact Hres.
  - intros pid e Hin. apply in_or_app. right. right. right.
    apply (removeAll_logged g (Id remSrc) (src opt) ps s1 pid e).
    apply in_app_or in Hin. destruct Hin as [Hin|Hin].
    + apply Hev in Hin. discriminate.
    + destruct Hin as [Hin|[Hin|Hin]];
        [discriminate | discriminate | exact Hin].
  - intros ev0 Hin Hm. apply in_app_or in Hin. destruct Hin as [Hin|Hin].
    + apply Hev in Hin. congruence.
    + destruct Hin as [Hin|[Hin|Hin]].
      * left. symmetry. exact Hin.
      * subst ev0. discriminate.
      * right. apply (removeAll_mutations g _ _ _ _ _ Hin Hm).
Qed.

(** ** A whole Move invocation *)

Lemma move_first_event g opt s :
  exists evs,
    events (move g opt s)
    = (if byId opt then EvFindByIdMulti (src opt) else EvFindByPath (src opt))
        :: evs.
Proof.
  unfold move, FindByIdMulti, FindByPath.
  destruct (byId opt); rewrite bind_query; eexists; reflexivity.
Qed.

(** C2.  When the common prefix of a source and the destination is the
    whole source, [Move] returns an error, and the store and the events it
    leaves are those of the loop over the sources listed before that one:
    neither that source nor a later one causes any call to the store.  If
    no earlier source is nested either, the error is the one naming this
    source and the destination. *)
Theorem C2_Move_rejects_nesting g byId pre src post dest s :
  Sources (opts g) = pre ++ src :: post ++ [dest] ->
  commonPrefix src dest = src ->
  (exists e, outcome (Move g byId s) = Done (Some e)) /\
  final (Move g byId s) = final (Move_loop g byId dest pre s) /\
  events (Move g byId s) = events (Move_loop g byId dest pre s) /\
  (Forall (fun x => commonPrefix x dest <> x) pre ->
   outcome (Move g byId s)
   = Done (Some (Errorf (src ++ " cannot be nested into " ++ dest)))).
Proof.
  intros HS Hn.
  assert (HS' : Sources (opts g) = (pre ++ src :: post) ++ [dest]).
  { rewrite HS, <- app_assoc. reflexivity. }
  rewrite (Move_unfold _ _ _ _ _ HS').
  - apply (Move_loop_stop g byId dest pre src post Hn s).
  - destruct pre; discriminate.
Qed.

(** C5, as the code has it.  A source that is not textually nested in
    the destination, and comes after sources that are not either, is
    handed to [move] in the store left by the sources before it, whatever
    errors those met and whatever comes after it, and its errors are
    printed for it.  A source that is nested in the destination ends
    [Move] with an error: what was done is what was done for the sources
    before it, and the sources after it are not attempted. *)
Theorem C5_Move_attempts_every_source g byId pre src post dest s :
  Sources (opts g) = pre ++ src :: post ++ [dest] ->
  (Forall (fun x => commonPrefix x dest <> x) pre ->
   commonPrefix src dest <> src ->
   exists errs evs,
     outcome (move g (mkMoveOpt src dest byId None None)
                (final (Move_loop g byId dest pre s))) = Done errs /\
     events (Move g byId s)
     = events (Move_loop g byId dest pre s)
         ++ events (move g (mkMoveOpt src dest byId None None)
                      (final (Move_loop g byId dest pre s)))
         ++ map (movePrint src) errs ++ evs /\
     In (if byId then EvFindByIdMulti src else EvFindByPath src)
        (events (Move g byId s))) /\
  (commonPrefix src dest = src ->
   (exists e, outcome (Move g byId s) = Done (Some e)) /\
   final (Move g byId s) = final (Move_loop g byId dest pre s) /\
   events (Move g byId s) = events (Move_loop g byId dest pre s)).
Proof.
  intros HS.
  assert (HS' : Sources (opts g) = (pre ++ src :: post) ++ [dest]).
  { rewrite HS, <- app_assoc. reflexivity. }
  rewrite (Move_unfold _ _ _ _ _ HS'); [|destruct pre; discriminate].
  split.
  - intros HF Hn.
    destruct (Move_loop_reaches g byId dest pre src post HF Hn s)
      as (errs & evs & He & Hev).
    exists errs, evs. split; [exact He|]. split; [exact Hev|].
    rewrite Hev. apply in_or_app. right. apply in_or_app. left.
    destruct (move_first_event g (mkMoveOpt src dest byId None None)
                (final (Move_loop g byId dest pre s))) as [evs' H1].
    rewrite H1. left. reflexivity.
  - intros Hn.
    destruct (Move_loop_stop g byId dest pre src post Hn s)
      as (Ho & Hf & Hev & _).
    repeat split; assumption.
Qed.

(** C10.  With at least two arguments and no source whose common prefix
    with the destination is the source itself, [Move] returns nil; the
    errors [move] returns for a source are printed, not returned. *)
Theorem C10_Move_returns_nil g byId s :
  2 <= length (Sources (opts g)) ->
  Forall (fun x =>
            commonPrefix x (last (Sources (opts g)) EmptyString) <> x)
         (removelast (Sources (opts g))) ->
  outcome (Move g byId s) = Done None /\
  (forall pre src post errs e,
     removelast (Sources (opts g)) = pre ++ src :: post ->
     outcome (move g (mkMoveOpt src (last (Sources (opts g)) EmptyString)
                        byId None None)
                (final (Move_loop g byId
                          (last (Sources (opts g)) EmptyString) pre s)))
     = Done errs ->
     In e errs ->
     In (EvPrintf ("move: " ++ src ++ ": " ++ Error e ++ nl))
        (events (Move g byId s))).
Proof.
  intros Hlen HF. unfold Move.
  assert (E : Nat.ltb (length (Sources (opts g))) 2 = false).
  { apply Nat.ltb_ge. exact Hlen. }
  rewrite E. split.
  - apply Move_loop_returns_nil. exact HF.
  - intros pre src post errs e Hrest He Hin. rewrite Hrest in *.
    destruct (Move_loop_split g byId _ pre src post HF s)
      as (errs' & evs & He' & Hev).
    rewrite He in He'. inversion He'; subst errs'.
    rewrite Hev. apply in_or_app. right. apply in_or_app. right.
    apply in_or_app. left.
    apply (in_map (movePrint src) errs e Hin).
Qed.

(** ** Rename *)




(** When nothing conflicts at the new full path (the lookup fails, or all
    it finds is the source itself), [rename_] makes the lookup and nothing
    else: the store's rename is not called, and the error of the lookup is
    what it returns. *)
Lemma rename__without_conflict g src remSrc byId newName dups err s :
  nth_error (Sources (opts g)) 1 = Some newName ->
  Remote.FindByPath (rem g)
    (filepath_Join (if negb byId then parentPather g src else Path (opts g))
                   (urlToPath newName true)) s
  = (dups, err) ->
  err <> None \/
  Forall (fun d => exists f, d = Some f /\ Id f = Id remSrc) dups ->
  rename_ g src (Some remSrc) byId s
  = mkRes (Done err) s
          [EvFindByPath
             (filepath_Join
                (if negb byId then parentPather g src else Path (opts g))
                (urlToPath newName true))].
Proof.
  intros Hn HF Hc. unfold rename_, FindByPath. rewrite Hn, bind_query, HF.
  cbn iota beta.
  destruct err as [e|].
  { destruct dups; reflexivity. }
  destruct Hc as [Hc|Hc]; [contradiction|].
  destruct dups as [|d dups]; [reflexivity|].
  match goal with
  | |- context [rangeAcc _ ?b None] =>
      assert (HL : forall xs,
        Forall (fun d => exists f, d = Some f /\ Id f = Id remSrc) xs ->
        rangeAcc xs b None s = mkRes (Done None) s [])
  end.
  { induction 1 as [|x xs (f & -> & Hid) _ IH]; cbn [rangeAcc].
    - reflexivity.
    - rewrite (bind_run _ _ s None s []).
      + cbn beta. rewrite IH. reflexivity.
      + cbn [deref]. rewrite !bind_ret_l. rewrite Hid, String.eqb_refl.
        reflexivity. }
  rewrite (HL _ Hc). reflexivity.
Qed.

(** ** Copy *)

Lemma copyEach_run g src vars df s :
  exists vars' s' n p res,
    copyEach g src vars df s = mkRes (Done vars') s' [EvCopy n p src res] /\
    (forall d, df = Some d -> IsDir d = true -> n = Name src /\ p = Id d).
Proof.
  destruct vars as [[[pid base] cps] errs]. unfold copyEach.
  assert (H : forall n p,
    exists vars' s' res,
      bind (rem_copy g n p src) (fun x =>
        let '(cp, cpErr) := x in
        ret (p, n,
             match cp with Some _ => cps ++ [cp] | None => cps end,
             match cpErr with Some e => errs ++ [e] | None => errs end)) s
      = mkRes (Done vars') s' [EvCopy n p src res]).
  { intros n p. unfold bind, rem_copy.
    destruct (Remote.copy (rem g) n p src s) as [[cp cpErr] s'].
    cbn. eexists _, _, _. reflexivity. }
  destruct df as [d|].
  - destruct (IsDir d) eqn:E.
    + destruct (H (Name src) (Id d)) as (v & s' & res & Hv).
      exists v, s', (Name src), (Id d), res. split; [exact Hv|].
      intros d' Hd _. inversion Hd; subst. split; reflexivity.
    + destruct (H base pid) as (v & s' & res & Hv).
      exists v, s', base, pid, res. split; [exact Hv|].
      intros d' Hd Hdir. inversion Hd; subst. congruence.
  - destruct (H base pid) as (v & s' & res & Hv).
    exists v, s', base, pid, res. split; [exact Hv|]. discriminate.
Qed.

Lemma copy_loop_run g src destFiles :
  forall vars s,
  exists vars' s' evs,
    rangeAcc destFiles (copyEach g src) vars s = mkRes (Done vars') s' evs /\
    (forall d, In (Some d) destFiles -> IsDir d = true ->
       exists res, In (EvCopy (Name src) (Id d) src res) evs) /\
    Forall (fun ev => exists n p res, ev = EvCopy n p src res) evs.
Proof.
  induction destFiles as [|df destFiles IH]; intros vars s; cbn [rangeAcc].
  - exists vars, s, []. split; [reflexivity|]. split.
    + intros d [].
    + constructor.
  - destruct (copyEach_run g src vars df s)
      as (v1 & s1 & n & p & res & H1 & Hdir).
    destruct (IH v1 s1) as (v2 & s2 & evs & H2 & Hin & Hall).
    exists v2, s2, (EvCopy n p src res :: evs).
    rewrite (bind_run _ _ _ _ _ _ H1), H2. split; [reflexivity|]. split.
    + intros d [Hd|Hd] Hisdir.
      * destruct (Hdir d Hd Hisdir) as [-> ->]. exists res. left. reflexivity.
      * destruct (Hin d Hd Hisdir) as [res' Hres]. exists res'. right.
        exact Hres.
    + constructor; [eexists _, _, _; reflexivity | exact Hall].
Qed.

(** C8.  For a source that is a copyable leaf, once the destination
    parent was located or created and the destination path was resolved,
    every directory found at the destination path gets the store's copy
    called with that directory's identity as parent and the source's own
    name; [copy] returns, and besides the directory creation of the parent
    it makes no mutating call other than copies of the source. *)
Theorem C8_copy_into_existing_directory
  fuel g src destPath dp s1 destFiles destErr d s :
  IsDir src = false ->
  Copyable src = true ->
  remoteMkdirAll g (fst (pathSplitter g destPath)) s = ((Some dp, None), s1) ->
  Remote.FindByPath (rem g) destPath s1 = (destFiles, destErr) ->
  hardError destErr = None ->
  In (Some d) destFiles ->
  IsDir d = true ->
  (exists res,
     In (EvCopy (Name src) (Id d) src res)
        (events (copy fuel g (Some src) destPath s))) /\
  (exists r, outcome (copy fuel g (Some src) destPath s) = Done r) /\
  (forall ev, In ev (events (copy fuel g (Some src) destPath s)) ->
     is_mutation ev = true ->
     ev = EvMkdirAll (fst (pathSplitter g destPath)) None \/
     exists n p res, ev = EvCopy n p src res).
Proof.
  intros His Hcp Hmk HF Herr Hin Hdir.
  assert (Hrun : exists r s' evs,
    copy fuel g (Some src) destPath s
    = mkRes (Done r) s'
        (EvMkdirAll (fst (pathSplitter g destPath)) None
           :: EvFindByPath destPath :: evs) /\
    (exists res, In (EvCopy (Name src) (Id d) src res) evs) /\
    Forall (fun ev => exists n p res, ev = EvCopy n p src res) evs).
  { destruct fuel; cbn [copy]; rewrite His, Hcp; cbn [negb];
      destruct (pathSplitter g destPath) as [destDir destBase];
      cbn [fst] in *;
      (assert (Hm : mkdirAll g destDir s
                    = mkRes (Done (Some dp, None)) s1
                            [EvMkdirAll destDir None])
         by (unfold mkdirAll; rewrite Hmk; reflexivity));
      rewrite (bind_run _ _ _ _ _ _ Hm); cbn iota beta; cbn [deref];
      rewrite !bind_ret_l; unfold FindByPath; rewrite !bind_query, HF;
      cbn iota beta; rewrite Herr;
      destruct (copy_loop_run g src destFiles (Id dp, destBase, [], []) s1)
        as (v & s' & evs & Hl & Hi & Hall);
      rewrite (bind_run _ _ _ _ _ _ Hl);
      destruct v as [[[pid base] cps] errs];
      exists (cps, errs), s', evs;
      (split; [cbn; rewrite app_nil_r; reflexivity|]);
      (split; [exact (Hi d Hin Hdir) | exact Hall]). }
  destruct Hrun as (r & s' & evs & Hrun & [res Hres] & Hall).
  rewrite Hrun. cbn [outcome events]. split; [|split].
  - exists res. right. right. exact Hres.
  - exists r. reflexivity.
  - intros ev [Hev|[Hev|Hev]] Hm.
    + left. symmetry. exact Hev.
    + subst ev. discriminate.
    + right. rewrite Forall_forall in Hall. apply Hall. exact Hev.
Qed.

(** [Copy] skips every nil entry of the resolved destination: when the
    destination path resolves to no object, it makes the lookup and
    nothing else. *)
Lemma Copy_absent_destination fuel g (byId : bool) destFiles err s :
  2 <= length (Sources (opts g)) ->
  Remote.FindByPath (rem g) (last (Sources (opts g)) EmptyString) s
  = (destFiles, err) ->
  hardError err = None ->
  Forall (fun d => d = None) destFiles ->
  Copy fuel g byId s
  = mkRes (Done None) s
          [EvLogln "Processing...";
           EvFindByPath (last (Sources (opts g)) EmptyString)].
Proof.
  intros Hlen HF Herr Hnone. unfold Copy.
  assert (E : Nat.ltb (length (Sources (opts g))) 2 = false).
  { apply Nat.ltb_ge. exact Hlen. }
  rewrite E. unfold Logln. rewrite bind_emit. unfold FindByPath.
  rewrite !bind_query, HF. cbn iota beta. rewrite Herr.
  match goal with
  | |- context [rangeAcc destFiles ?b tt] =>
      assert (HL : rangeAcc destFiles b tt s = mkRes (Done tt) s [])
  end.
  { clear HF. induction Hnone as [|x xs -> _ IH]; cbn [rangeAcc].
    - reflexivity.
    - rewrite bind_ret_l. exact IH. }
  rewrite !(bind_run _ _ _ _ _ _ HL). reflexivity.
Qed.

(** A leaf [copy] whose destination path resolves to nothing creates the
    parent directory and stops: the loop over the objects found has no
    entry to call the store's copy for. *)
Lemma copy_leaf_absent_destination fuel g src destPath dp s1 destErr s :
  IsDir src = false ->
  Copyable src = true ->
  remoteMkdirAll g (fst (pathSplitter g destPath)) s = ((Some dp, None), s1) ->
  Remote.FindByPath (rem g) destPath s1 = ([], destErr) ->
  hardError destErr = None ->
  copy fuel g (Some src) destPath s
  = mkRes (Done ([], [])) s1
          [EvMkdirAll (fst (pathSplitter g destPath)) None;
           EvFindByPath destPath].
Proof.
  intros His Hcp Hmk HF Herr.
  destruct fuel; cbn [copy]; rewrite His, Hcp; cbn [negb];
    destruct (pathSplitter g destPath) as [destDir destBase];
    cbn [fst] in *;
    (assert (Hm : mkdirAll g destDir s
                  = mkRes (Done (Some dp, None)) s1
                          [EvMkdirAll destDir None])
       by (unfold mkdirAll; rewrite Hmk; reflexivity));
    rewrite (bind_run _ _ _ _ _ _ Hm); cbn iota beta; cbn [deref];
    rewrite !bind_ret_l; unfold FindByPath; rewrite !bind_query, HF;
    cbn iota beta; rewrite Herr; reflexivity.
Qed.

(** ** Which events a command can leave *)

Lemma emits_ret {A} P (a : A) : emits P (ret (St := St) a).
Proof. intros s. constructor. Qed.

Lemma emits_panic {A} P why : emits P (panic (St := St) (A := A) why).
Proof. intros s. constructor. Qed.

Lemma emits_bind {A B} P (m : Cmd A) (f : A -> Cmd B) :
  emits P m -> (forall a, emits P (f a)) -> emits P (bind m f).
Proof.
  intros Hm Hf s. unfold bind. specialize (Hm s).
  destruct (outcome (m s)); cbn [events]; auto.
  apply Forall_app. split; [exact Hm | apply Hf].
Qed.

Lemma emits_query {A} (P : Event -> Prop) e (f : St -> A) :
  P e -> emits P (query e f).
Proof. intros H s. repeat constructor. exact H. Qed.

Lemma emits_emit (P : Event -> Prop) e : P e -> emits P (emit (St := St) e).
Proof. intros H s. repeat constructor. exact H. Qed.

Lemma emits_deref P what p : emits P (deref (St := St) what p).
Proof. destruct p; [apply emits_ret | apply emits_panic]. Qed.

Lemma emits_rangeReturn {A} P (body : A -> Cmd (option error)) :
  (forall x, emits P (body x)) -> forall xs, emits P (rangeReturn xs body).
Proof.
  intros Hb xs. induction xs as [|x xs IH]; simpl.
  - apply emits_ret.
  - apply emits_bind; [apply Hb|]. intros [e|]; [apply emits_ret | exact IH].
Qed.

Lemma emits_rangeAcc {A B} P (body : B -> A -> Cmd B) :
  (forall acc x, emits P (body acc x)) ->
  forall xs acc, emits P (rangeAcc xs body acc).
Proof.
  intros Hb xs. induction xs as [|x xs IH]; intros acc; simpl.
  - apply emits_ret.
  - apply emits_bind; [apply Hb | intros acc'; apply IH].
Qed.

Lemma emits_insertParent (P : Event -> Prop) g f p :
  (forall r, P (EvInsertParent f p r)) -> emits P (insertParent g f p).
Proof.
  intros H s. unfold insertParent.
  destruct (Remote.insertParent (rem g) f p s). repeat constructor. apply H.
Qed.

Lemma emits_rem_removeParent (P : Event -> Prop) g f p :
  (forall r, P (EvRemoveParent f p r)) -> emits P (rem_removeParent g f p).
Proof.
  intros H s. unfold rem_removeParent.
  destruct (Remote.removeParent (rem g) f p s). repeat constructor. apply H.
Qed.

Lemma emits_removeParent (P : Event -> Prop) g f p :
  (forall q, P (EvFindByPath q)) ->
  (forall q r, P (EvRemoveParent f q r)) ->
  (forall m, P (EvLogErrf m)) ->
  emits P (removeParent g f p).
Proof.
  intros HF HR HL. unfold removeParent, FindByPath.
  apply emits_bind; [apply emits_query, HF|].
  intros [parents [e|]]; [apply emits_ret|].
  apply emits_rangeReturn. intros [parent|]; [|apply emits_ret].
  apply emits_bind; [apply emits_rem_removeParent; intros; apply HR|].
  intros [e|]; [|apply emits_ret].
  apply emits_bind; [apply emits_emit, HL | intros _; apply emits_ret].
Qed.

(** The events of one pair: lookups, at most the insertion of the new
    edge, and, only in a move by path, removals and their log lines. *)
Lemma emits_move_ (P : Event -> Prop) g opt :
  (forall q, P (EvFindByPath q)) ->
  (forall c q r, P (EvInsertParent c q r)) ->
  (byId opt = false -> forall c q r, P (EvRemoveParent c q r)) ->
  (byId opt = false -> forall m, P (EvLogErrf m)) ->
  emits P (move_ g opt).
Proof.
  intros HF HI HR HL. unfold move_, FindByPath.
  destruct (srcFile opt) as [remSrc|]; [|apply emits_ret].
  apply emits_bind.
  - destruct (byId opt); [apply emits_ret|].
    apply emits_bind; [apply emits_query, HF|].
    intros [oldParents parErr]. destruct (hardError parErr); [apply emits_ret|].
    apply emits_rangeReturn. intros [oldParent|]; [|apply emits_ret].
    apply emits_bind; [apply emits_deref|]. intros f.
    destruct (String.eqb (Id oldParent) (Id f)); apply emits_ret.
  - intros [e|]; [apply emits_ret|].
    apply emits_bind; [apply emits_query, HF|].
    intros [dupChecks err]. destruct (hardError err); [apply emits_ret|].
    apply emits_bind.
    + apply emits_rangeReturn. intros [dup|]; [|apply emits_ret].
      destruct (String.eqb (Id dup) (Id remSrc)); [apply emits_ret|].
      destruct (negb (Force (opts g))); apply emits_ret.
    + intros [e|]; [apply emits_ret|].
      apply emits_bind; [apply emits_deref|]. intros f.
      destruct (String.eqb (Id remSrc) (Id f)); [apply emits_ret|].
      apply emits_bind; [apply emits_insertParent; intros; apply HI|].
      intros [e|]; [apply emits_ret|].
      destruct (byId opt); [apply emits_ret|].
      apply emits_removeParent; auto.
Qed.

Lemma emits_move (P : Event -> Prop) g opt :
  (forall q, P (EvFindByPath q)) ->
  (forall q, P (EvFindByIdMulti q)) ->
  (forall c q r, P (EvInsertParent c q r)) ->
  (byId opt = false -> forall c q r, P (EvRemoveParent c q r)) ->
  (byId opt = false -> forall m, P (EvLogErrf m)) ->
  emits P (move g opt).
Proof.
  intros HF HM HI HR HL. unfold move, FindByPath, FindByIdMulti.
  apply emits_bind.
  - destruct (byId opt); apply emits_query; auto.
  - intros [sources [e|]]; [apply emits_ret|].
    apply emits_bind; [apply emits_query, HF|].
    intros [newParents [e|]]; [apply emits_ret|].
    apply emits_rangeAcc. intros errs source.
    apply emits_rangeAcc. clear errs. intros errs [np|]; [|apply emits_ret].
    destruct (IsDir np); [|apply emits_ret].
    apply emits_bind; [apply emits_move_; auto|].
    intros [e|]; apply emits_ret.
Qed.

Lemma emits_Move (P : Event -> Prop) g (byId : bool) :
  (forall q, P (EvFindByPath q)) ->
  (forall q, P (EvFindByIdMulti q)) ->
  (forall c q r, P (EvInsertParent c q r)) ->
  (byId = false -> forall c q r, P (EvRemoveParent c q r)) ->
  (byId = false -> forall m, P (EvLogErrf m)) ->
  (forall m, P (EvPrintf m)) ->
  emits P (Move g byId).
Proof.
  intros HF HM HI HR HL HP. unfold Move.
  destruct (Nat.ltb _ 2); [apply emits_ret|].
  generalize (removelast (Sources (opts g))) as rest.
  intros rest. induction rest as [|x rest IH]; simpl.
  - apply emits_ret.
  - destruct (String.eqb _ x); [apply emits_ret|].
    apply emits_bind; [apply emits_move; auto|]. intros errs.
    apply emits_bind; [|intros _; exact IH].
    apply emits_rangeAcc. intros _ e. apply emits_emit, HP.
Qed.

Lemma total_Move_loop g byId dest rest : total (Move_loop g byId dest rest).
Proof.
  induction rest as [|x rest IH]; simpl.
  - apply total_ret.
  - destruct (String.eqb _ x); [apply total_ret|].
    apply total_bind; [apply total_move|]. intros errs.
    apply total_bind; [|intros _; exact IH].
    apply total_rangeAcc. intros _ e. apply total_emit.
Qed.

(** ** Further properties of Move *)

(** X1.  With fewer than two arguments each of the three verbs returns
    its usage error at once: the store is not consulted and nothing is
    logged. *)
Theorem X1_too_few_arguments fuel g (byId : bool) s :
  length (Sources (opts g)) < 2 ->
  Move g byId s
  = mkRes (Done (Some (Errorf
      ("move: expected <src> [src...] <dest>, instead got: "
         ++ fmtStrings (Sources (opts g)))))) s [] /\
  Rename g byId s
  = mkRes (Done (Some (Errorf "rename: expecting <src> <newname>"))) s [] /\
  Copy fuel g byId s
  = mkRes (Done (Some (Errorf
      ("expecting src [src1....] dest got: "
         ++ fmtStrings (Sources (opts g)))))) s [].
Proof.
  intros H. apply Nat.ltb_lt in H. unfold Move, Rename, Copy.
  rewrite H. repeat split.
Qed.

(** X2.  [Move] never panics: whatever the store answers, nil entries
    included, it returns a value. *)
Theorem X2_Move_never_panics g (byId : bool) s :
  exists r, outcome (Move g byId s) = Done r.
Proof.
  unfold Move. destruct (Nat.ltb _ 2); [eexists; reflexivity|].
  apply total_Move_loop.
Qed.

(** X3.  Whatever its arguments, [Move] only looks paths and identifiers
    up, inserts and removes parent edges, and logs or prints lines: it
    never renames, copies, creates a directory or lists children. *)
Theorem X3_Move_only_edits_parent_edges g (byId : bool) s :
  Forall (fun ev => edge_event ev = true) (events (Move g byId s)).
Proof.
  apply (emits_Move (fun ev => edge_event ev = true)); reflexivity.
Qed.

(** X4.  A move by identifier never removes a parent edge: the object
    keeps every parent it had. *)
Theorem X4_Move_by_id_keeps_old_parents g s :
  Forall (fun ev => is_removeParent ev = false) (events (Move g true s)).
Proof.
  apply (emits_Move (fun ev => is_removeParent ev = false));
    try reflexivity; discriminate.
Qed.

(** ** move: resolution failures and unusable pairs *)

Lemma rangeAcc_pure {A B} (body : B -> A -> Cmd B) (f : B -> A -> B) xs :
  (forall acc x s, body acc x s = mkRes (Done (f acc x)) s []) ->
  forall acc s, rangeAcc xs body acc s = mkRes (Done (fold_left f xs acc)) s [].
Proof.
  intros Hb. induction xs as [|x xs IH]; intros acc s; simpl.
  - reflexivity.
  - rewrite (bind_run _ _ _ _ _ _ (Hb acc x s)). cbn beta.
    rewrite IH. reflexivity.
Qed.

(** A loop whose body leaves the store and the variables alone. *)
Lemma rangeAcc_keep {A B} (body : B -> A -> Cmd B) (ev : A -> list Event)
  s xs :
  (forall acc x, In x xs -> body acc x s = mkRes (Done acc) s (ev x)) ->
  forall acc, rangeAcc xs body acc s = mkRes (Done acc) s (flat_map ev xs).
Proof.
  induction xs as [|x xs IH]; intros Hb acc; cbn [rangeAcc flat_map].
  - reflexivity.
  - rewrite (bind_run _ _ _ _ _ _ (Hb acc x (or_introl eq_refl))).
    cbn beta. rewrite IH.
    + reflexivity.
    + intros acc0 y Hy. apply Hb. right. exact Hy.
Qed.

Lemma fold_left_snoc_map {A B} (h : A -> B) xs :
  forall acc, fold_left (fun acc x => acc ++ [h x]) xs acc = acc ++ map h xs.
Proof.
  induction xs as [|x xs IH]; intros acc; simpl.
  - rewrite app_nil_r. reflexivity.
  - rewrite IH, <- app_assoc. reflexivity.
Qed.

Lemma fold_left_app_const {A B} (l : list B) (xs : list A) :
  forall acc,
    fold_left (fun acc _ => acc ++ l) xs acc
    = acc ++ concat (map (fun _ => l) xs).
Proof.
  induction xs as [|x xs IH]; intros acc; simpl.
  - rewrite app_nil_r. reflexivity.
  - rewrite IH, <- app_assoc. reflexivity.
Qed.

(** X5.  When the source cannot be resolved [move] returns that one error
    and does not even look the destination up; when the destination
    cannot be resolved (a path that does not exist included) it returns
    that one error.  Either way nothing is changed. *)
Theorem X5_move_resolution_failure g opt sources e s :
  (if byId opt then Remote.FindByIdMulti (rem g) (src opt) s
   else Remote.FindByPath (rem g) (src opt) s) = (sources, e) ->
  (forall err, e = Some err ->
     move g opt s
     = mkRes (Done [Errorf ("src('" ++ src opt ++ "') " ++ Error err)]) s
         [if byId opt then EvFindByIdMulti (src opt)
          else EvFindByPath (src opt)]) /\
  (forall nps err,
     e = None ->
     Remote.FindByPath (rem g) (dest opt) s = (nps, Some err) ->
     move g opt s
     = mkRes (Done [Errorf ("dest: '" ++ dest opt ++ "' " ++ Error err)]) s
         [if byId opt then EvFindByIdMulti (src opt)
          else EvFindByPath (src opt);
          EvFindByPath (dest opt)]).
Proof.
  intros Hres.
  assert (Hr : (if byId opt then FindByIdMulti g else FindByPath g)
                 (src opt) s
               = mkRes (Done (sources, e)) s
                   [if byId opt then EvFindByIdMulti (src opt)
                    else EvFindByPath (src opt)]).
  { unfold FindByIdMulti, FindByPath, query.
    destruct (byId opt); rewrite Hres; reflexivity. }
  split.
  - intros err ->. unfold move. rewrite (bind_run _ _ _ _ _ _ Hr).
    reflexivity.
  - intros nps err -> HF. unfold move. rewrite (bind_run _ _ _ _ _ _ Hr).
    cbn iota beta. unfold FindByPath. rewrite !bind_query, HF. reflexivity.
Qed.

(** X6.  When no resolved destination is an existing directory, [move]
    reports "must be an existant folder" once for every pair of a resolved
    source and a resolved destination, and makes no call beyond the two
    lookups. *)
Theorem X6_move_needs_a_folder g opt sources nps s :
  (if byId opt then Remote.FindByIdMulti (rem g) (src opt) s
   else Remote.FindByPath (rem g) (src opt) s) = (sources, None) ->
  Remote.FindByPath (rem g) (dest opt) s = (nps, None) ->
  Forall (fun np => isFolder np = false) nps ->
  move g opt s
  = mkRes (Done (repeat (notAFolderErr (dest opt))
                        (length sources * length nps)))
          s
          [if byId opt then EvFindByIdMulti (src opt)
           else EvFindByPath (src opt);
           EvFindByPath (dest opt)].
Proof.
  intros Hres HF Hno.
  assert (Hr : (if byId opt then FindByIdMulti g else FindByPath g)
                 (src opt) s
               = mkRes (Done (sources, None)) s
                   [if byId opt then EvFindByIdMulti (src opt)
                    else EvFindByPath (src opt)]).
  { unfold FindByIdMulti, FindByPath, query.
    destruct (byId opt); rewrite Hres; reflexivity. }
  unfold move. rewrite (bind_run _ _ _ _ _ _ Hr). cbn iota beta.
  unfold FindByPath. rewrite !bind_query, HF. cbn iota beta.
  match goal with
  | |- context [rangeAcc sources ?b []] =>
      assert (HL : forall acc s0,
        rangeAcc sources b acc s0
        = mkRes (Done (fold_left
                   (fun acc (_ : option File) =>
                      acc ++ repeat (notAFolderErr (dest opt)) (length nps))
                   sources acc)) s0 [])
  end.
  { apply rangeAcc_pure. intros acc source s0.
    match goal with
    | |- rangeAcc nps ?b acc s0 = _ =>
        assert (HI : forall xs, Forall (fun np => isFolder np = false) xs ->
          forall acc s1,
            rangeAcc xs b acc s1
            = mkRes (Done (acc ++ repeat (notAFolderErr (dest opt))
                                    (length xs))) s1 [])
    end.
    { clear. induction 1 as [|x xs Hx _ IH]; intros acc s1; cbn [rangeAcc].
      - simpl. rewrite app_nil_r. reflexivity.
      - rewrite (bind_run _ _ s1 (acc ++ [notAFolderErr (dest opt)]) s1 []).
        + cbn beta. rewrite IH. cbn. rewrite <- app_assoc. reflexivity.
        + destruct x as [d|]; [|reflexivity]. simpl in Hx. rewrite Hx.
          reflexivity. }
    apply HI. exact Hno. }
  rewrite !HL. cbn [outcome final events app]. f_equal. f_equal.
  clear. generalize (notAFolderErr (dest opt)) as e. intros e.
  rewrite (fold_left_app_const (repeat e (length nps)) sources []).
  simpl. induction sources as [|x xs IH]; simpl.
  - reflexivity.
  - rewrite IH, repeat_app. reflexivity.
Qed.

(** X7.  A nil entry among the resolved sources costs one "could not be
    found" error for every destination directory, and no call to the
    store: with only nil sources [move] makes the two lookups and
    nothing else. *)
Theorem X7_move_nil_sources g opt sources nps s :
  (if byId opt then Remote.FindByIdMulti (rem g) (src opt) s
   else Remote.FindByPath (rem g) (src opt) s) = (sources, None) ->
  Remote.FindByPath (rem g) (dest opt) s = (nps, None) ->
  Forall (fun source => source = None) sources ->
  move g opt s
  = mkRes (Done (concat (map (fun _ : option File =>
                   map (fun np => if isFolder np
                                  then srcNotFoundErr (src opt)
                                  else notAFolderErr (dest opt)) nps)
                   sources)))
          s
          [if byId opt then EvFindByIdMulti (src opt)
           else EvFindByPath (src opt);
           EvFindByPath (dest opt)].
Proof.
  intros Hres HF Hnil.
  assert (Hr : (if byId opt then FindByIdMulti g else FindByPath g)
                 (src opt) s
               = mkRes (Done (sources, None)) s
                   [if byId opt then EvFindByIdMulti (src opt)
                    else EvFindByPath (src opt)]).
  { unfold FindByIdMulti, FindByPath, query.
    destruct (byId opt); rewrite Hres; reflexivity. }
  unfold move. rewrite (bind_run _ _ _ _ _ _ Hr). cbn iota beta.
  unfold FindByPath. rewrite !bind_query, HF. cbn iota beta.
  match goal with
  | |- context [rangeAcc sources ?b []] =>
      assert (HL : forall xs, Forall (fun source => source = None) xs ->
        forall acc s0,
        rangeAcc xs b acc s0
        = mkRes (Done (acc ++ concat (map (fun _ : option File =>
                   map (fun np => if isFolder np
                                  then srcNotFoundErr (src opt)
                                  else notAFolderErr (dest opt)) nps)
                   xs))) s0 [])
  end.
  { clear. induction 1 as [|x xs -> _ IH]; intros acc s0; cbn [rangeAcc].
    - simpl. rewrite app_nil_r. reflexivity.
    - rewrite (bind_run _ _ s0
                 (acc ++ map (fun np => if isFolder np
                                        then srcNotFoundErr (src opt)
                                        else notAFolderErr (dest opt)) nps)
                 s0 []).
      + cbn beta. rewrite IH. cbn. rewrite <- app_assoc. reflexivity.
      + rewrite (rangeAcc_pure _
                   (fun acc np => acc ++ [if isFolder np
                                          then srcNotFoundErr (src opt)
                                          else notAFolderErr (dest opt)])).
        * rewrite fold_left_snoc_map. reflexivity.
        * intros acc' [d|] s1; [|reflexivity]. simpl.
          destruct (IsDir d); reflexivity. }
  rewrite !(HL sources Hnil). reflexivity.
Qed.

(** ** move_: what stops a pair, and in which order the edges change *)

Lemma firstErr_sameParent_hit np ops op :
  In (Some op) ops -> Id op = Id np ->
  firstErr (sameParentView np) ops
  = Some (Errorf ("src and dest are the same srcParentId "
                    ++ customQuote (Id np) ++ " destParentId "
                    ++ customQuote (Id np))).
Proof.
  intros Hin Hid. induction ops as [|[o|] ops IH]; simpl.
  - contradiction.
  - destruct (String.eqb (Id o) (Id np)) eqn:E.
    + apply String.eqb_eq in E. rewrite E. reflexivity.
    + apply IH. destruct Hin as [Hin|Hin]; [|exact Hin].
      inversion Hin; subst. rewrite Hid, String.eqb_refl in E. discriminate.
  - apply IH. destruct Hin as [Hin|Hin]; [discriminate | exact Hin].
Qed.

(** X8.  In a move by path, when one of the directories the source's
    parent path resolves to is the destination directory itself, [move_]
    refuses with "src and dest are the same": the parent lookup is the
    only call made. *)
Theorem X8_move_into_own_parent_is_refused g opt remSrc np op s :
  srcFile opt = Some remSrc ->
  destFile opt = Some np ->
  byId opt = false ->
  hardError (snd (Remote.FindByPath (rem g) (parentPather g (src opt)) s))
  = None ->
  In (Some op)
     (fst (Remote.FindByPath (rem g) (parentPather g (src opt)) s)) ->
  Id op = Id np ->
  move_ g opt s
  = mkRes (Done (Some (Errorf ("src and dest are the same srcParentId "
                                 ++ customQuote (Id np) ++ " destParentId "
                                 ++ customQuote (Id np)))))
          s [EvFindByPath (parentPather g (src opt))].
Proof.
  intros Hs Hd Hb Herr Hin Hid. rewrite (move__run _ _ _ _ _ Hs Hd).
  unfold precheck. rewrite Hb, Herr.
  rewrite (firstErr_sameParent_hit _ _ _ Hin Hid). reflexivity.
Qed.

(** X9.  [move_] never makes an object its own parent: when the source
    and the destination directory have the same identity it returns an
    error, whichever check notices first, and changes nothing. *)
Theorem X9_move_into_itself_is_refused g opt remSrc np s :
  srcFile opt = Some remSrc ->
  destFile opt = Some np ->
  Id remSrc = Id np ->
  (exists e, outcome (move_ g opt s) = Done (Some e)) /\
  final (move_ g opt s) = s /\
  Forall (fun ev => is_mutation ev = false) (events (move_ g opt s)).
Proof.
  intros Hs Hd Hid. rewrite (move__run _ _ _ _ _ Hs Hd).
  pose proof (precheck_events g opt remSrc np s) as Hev.
  assert (Hrej : exists e, fst (precheck g opt remSrc np s) = Some e).
  { unfold precheck. rewrite Hid, String.eqb_refl.
    match goal with
    | |- context [if byId opt then None else ?x] =>
        destruct (if byId opt then None else x)
    end; [eexists; reflexivity|].
    destruct (hardError _); [eexists; reflexivity|].
    destruct (firstErr _ _); eexists; reflexivity. }
  destruct Hrej as [e He].
  destruct (precheck g opt remSrc np s) as [[e'|] ev]; simpl in He;
    [|discriminate].
  simpl. repeat split; eauto.
Qed.

(** The shape of a run of [move_] that got past its checks. *)
Lemma move__after_checks g opt remSrc np s :
  srcFile opt = Some remSrc ->
  destFile opt = Some np ->
  (exists e ev,
     move_ g opt s = mkRes (Done (Some e)) s ev /\
     Forall (fun ev => is_mutation ev = false) ev) \/
  (exists ev,
     Forall (fun ev => is_mutation ev = false) ev /\
     match Remote.insertParent (rem g) (Id remSrc) (Id np) s with
     | (Some e, s1) =>
         move_ g opt s
         = mkRes (Done (Some e)) s1
             (ev ++ [EvInsertParent (Id remSrc) (Id np) (Some e)])
     | (None, s1) =>
         move_ g opt s
         = mkRes (outcome ((if byId opt then ret None
                            else removeParent g (Id remSrc) (src opt)) s1))
             (final ((if byId opt then ret None
                      else removeParent g (Id remSrc) (src opt)) s1))
             (ev ++ EvInsertParent (Id remSrc) (Id np) None
                 :: events ((if byId opt then ret None
                             else removeParent g (Id remSrc) (src opt)) s1))
     end).
Proof.
  intros Hs Hd. pose proof (move__run g opt remSrc np s Hs Hd) as Hrun.
  pose proof (precheck_events g opt remSrc np s) as Hev.
  destruct (precheck g opt remSrc np s) as [[e|] ev]; simpl in Hev.
  { left. exists e, ev. split; assumption. }
  right. exists ev. split; [exact Hev|]. cbv zeta in Hrun.
  destruct (Remote.insertParent (rem g) (Id remSrc) (Id np) s)
    as [err s1] eqn:E.
  assert (Hins : insertParent g (Id remSrc) (Id np) s
                 = mkRes (Done err) s1
                         [EvInsertParent (Id remSrc) (Id np) err]).
  { unfold insertParent. rewrite E. reflexivity. }
  rewrite (bind_run _ _ _ _ _ _ Hins) in Hrun.
  destruct err as [e|]; exact Hrun.
Qed.

Lemma removeParent_first_event g f p s :
  Forall (fun ev => is_mutation ev = true -> exists q r, ev = EvRemoveParent f q r)
         (events (removeParent g f p s)).
Proof.
  apply (emits_removeParent
           (fun ev => is_mutation ev = true ->
                      exists q r, ev = EvRemoveParent f q r)).
  - discriminate.
  - intros q r _. exists q, r. reflexivity.
  - discriminate.
Qed.

(** X10.  When the store refuses the new parent edge, [move_] returns
    the store's error as it is and stops: the refused insertion is the
    last event and no parent edge is removed. *)
Theorem X10_move_failed_insertion_stops g opt remSrc np c p e s :
  srcFile opt = Some remSrc ->
  destFile opt = Some np ->
  In (EvInsertParent c p (Some e)) (events (move_ g opt s)) ->
  outcome (move_ g opt s) = Done (Some e) /\
  Forall (fun ev => is_removeParent ev = false) (events (move_ g opt s)) /\
  exists ev,
    events (move_ g opt s)
    = ev ++ [EvInsertParent (Id remSrc) (Id np) (Some e)] /\
    Forall (fun ev => is_mutation ev = false) ev.
Proof.
  intros Hs Hd Hin.
  destruct (move__after_checks g opt remSrc np s Hs Hd)
    as [(e0 & ev & Hrun & Hev) | (ev & Hev & Hrun)].
  { rewrite Hrun in Hin. simpl in Hin. rewrite Forall_forall in Hev.
    apply Hev in Hin. discriminate. }
  destruct (Remote.insertParent (rem g) (Id remSrc) (Id np) s)
    as [[e1|] s1].
  - rewrite Hrun in *. cbn [outcome events] in *.
    apply in_app_or in Hin. destruct Hin as [Hin|Hin].
    { rewrite Forall_forall in Hev. apply Hev in Hin. discriminate. }
    destruct Hin as [Hin|[]]. inversion Hin; subst.
    split; [reflexivity|]. split.
    + apply Forall_app. split.
      * apply Forall_forall. intros x Hx. rewrite Forall_forall in Hev.
        specialize (Hev x Hx). destruct x; try reflexivity; discriminate.
      * repeat constructor.
    + exists ev. split; [reflexivity | exact Hev].
  - rewrite Hrun in Hin. cbn [events] in Hin.
    apply in_app_or in Hin. destruct Hin as [Hin|Hin].
    { rewrite Forall_forall in Hev. apply Hev in Hin. discriminate. }
    destruct Hin as [Hin|Hin]; [discriminate|].
    exfalso. destruct (byId opt); [destruct Hin|].
    pose proof (removeParent_first_event g (Id remSrc) (src opt) s1) as HR.
    rewrite Forall_forall in HR.
    destruct (HR _ Hin eq_refl) as (q & r & Heq). discriminate.
Qed.

(** X11.  The old parent edges are only touched after the new one is in
    place: a [removeParent] call in a run of [move_] means the move is by
    path, removes an edge of the source, and comes after the insertion of
    the source under the destination succeeded. *)
Theorem X11_move_removes_only_after_inserting g opt remSrc np c p r s :
  srcFile opt = Some remSrc ->
  destFile opt = Some np ->
  In (EvRemoveParent c p r) (events (move_ g opt s)) ->
  byId opt = false /\
  c = Id remSrc /\
  exists before after,
    events (move_ g opt s)
    = before ++ EvInsertParent (Id remSrc) (Id np) None :: after /\
    Forall (fun ev => is_mutation ev = false) before /\
    In (EvRemoveParent c p r) after.
Proof.
  intros Hs Hd Hin.
  destruct (move__after_checks g opt remSrc np s Hs Hd)
    as [(e0 & ev & Hrun & Hev) | (ev & Hev & Hrun)].
  { rewrite Hrun in Hin. simpl in Hin. rewrite Forall_forall in Hev.
    apply Hev in Hin. discriminate. }
  destruct (Remote.insertParent (rem g) (Id remSrc) (Id np) s)
    as [[e1|] s1].
  - rewrite Hrun in Hin. cbn [events] in Hin.
    apply in_app_or in Hin. destruct Hin as [Hin|Hin].
    { rewrite Forall_forall in Hev. apply Hev in Hin. discriminate. }
    destruct Hin as [Hin|[]]. discriminate.
  - rewrite Hrun in *. cbn [events] in *.
    apply in_app_or in Hin. destruct Hin as [Hin|Hin].
    { rewrite Forall_forall in Hev. apply Hev in Hin. discriminate. }
    destruct Hin as [Hin|Hin]; [discriminate|].
    destruct (byId opt); [destruct Hin|].
    split; [reflexivity|].
    pose proof (removeParent_first_event g (Id remSrc) (src opt) s1) as HR.
    rewrite Forall_forall in HR.
    destruct (HR _ Hin eq_refl) as (q & r' & Heq). inversion Heq; subst.
    split; [reflexivity|].
    exists ev, (events (removeParent g (Id remSrc) (src opt) s1)).
    repeat split; assumption.
Qed.

(** X12.  After the new edge is in place, an error of the lookup of the
    old parent path, "path does not exist" included, becomes the result of
    [move_]: the pair is reported as failed, no old edge is removed, and
    the inserted edge stays. *)
Theorem X12_move_old_parent_lookup_failure g opt remSrc np ps e s :
  srcFile opt = Some remSrc ->
  destFile opt = Some np ->
  byId opt = false ->
  In (EvInsertParent (Id remSrc) (Id np) None) (events (move_ g opt s)) ->
  Remote.FindByPath (rem g) (parentPather g (src opt))
    (snd (Remote.insertParent (rem g) (Id remSrc) (Id np) s))
  = (ps, Some e) ->
  outcome (move_ g opt s) = Done (Some e) /\
  final (move_ g opt s)
  = snd (Remote.insertParent (rem g) (Id remSrc) (Id np) s) /\
  Forall (fun ev => is_removeParent ev = false) (events (move_ g opt s)).
Proof.
  intros Hs Hd Hb Hin HF.
  destruct (move__after_checks g opt remSrc np s Hs Hd)
    as [(e0 & ev & Hrun & Hev) | (ev & Hev & Hrun)].
  { rewrite Hrun in Hin. simpl in Hin. rewrite Forall_forall in Hev.
    apply Hev in Hin. discriminate. }
  destruct (Remote.insertParent (rem g) (Id remSrc) (Id np) s)
    as [[e1|] s1]; cbn [snd] in HF.
  - rewrite Hrun in Hin. cbn [events] in Hin.
    apply in_app_or in Hin. destruct Hin as [Hin|Hin].
    { rewrite Forall_forall in Hev. apply Hev in Hin. discriminate. }
    destruct Hin as [Hin|[]]. discriminate.
  - rewrite Hb in Hrun.
    assert (HR : removeParent g (Id remSrc) (src opt) s1
                 = mkRes (Done (Some e)) s1
                         [EvFindByPath (parentPather g (src opt))]).
    { unfold removeParent, FindByPath. rewrite bind_query, HF.
      reflexivity. }
    rewrite HR in Hrun. rewrite Hrun. cbn [outcome final events snd].
    split; [reflexivity|]. split; [reflexivity|].
    apply Forall_app. split.
    + apply Forall_forall. intros x Hx. rewrite Forall_forall in Hev.
      specialize (Hev x Hx). destruct x; try reflexivity; discriminate.
    + repeat constructor.
Qed.

(** ** removeParent: a nil entry among the old parents *)

Lemma rangeReturn_app {A} (body : A -> Cmd (option error)) xs ys :
  forall s s1 ev1,
    rangeReturn xs body s = mkRes (Done None) s1 ev1 ->
    rangeReturn (xs ++ ys) body s
    = mkRes (outcome (rangeReturn ys body s1))
            (final (rangeReturn ys body s1))
            (ev1 ++ events (rangeReturn ys body s1)).
Proof.
  induction xs as [|x xs IH]; intros s s1 ev1 H; simpl in *.
  - inversion H; subst. simpl.
    destruct (rangeReturn ys body s1); reflexivity.
  - unfold bind in *. destruct (body x s) as [o s' ev'].
    cbn [outcome final events] in *.
    destruct o as [[e|]| |]; cbn [outcome final events ret] in *;
      try discriminate.
    destruct (rangeReturn xs body s') as [o2 s2 ev2] eqn:E2.
    cbn [outcome final events] in H. inversion H; subst.
    rewrite (IH s' s1 ev2 E2). cbn [outcome final events].
    rewrite <- app_assoc. reflexivity.
Qed.

(** X13.  [removeParent] goes through the resolved old parents in order
    and stops at the first nil entry with the "non existant parent" error:
    the edges to the parents before it were asked to be removed, those
    after it are left alone. *)
Theorem X13_removeParent_stops_at_nil_parent
  g fileId relToRootPath ps rest s :
  Remote.FindByPath (rem g) (parentPather g relToRootPath) s
  = (map Some ps ++ None :: rest, None) ->
  removeParent g fileId relToRootPath s
  = mkRes (Done (Some (Errorf ("non existant parent '"
                                 ++ parentPather g relToRootPath
                                 ++ "' for src"))))
          (fst (removeAll g fileId relToRootPath ps s))
          (EvFindByPath (parentPather g relToRootPath)
             :: snd (removeAll g fileId relToRootPath ps s)).
Proof.
  intros HF. unfold removeParent, FindByPath. rewrite bind_query, HF.
  cbn iota beta.
  match goal with
  | |- context [rangeReturn _ ?b] =>
      assert (HL : forall s0,
        rangeReturn (map Some ps) b s0
        = mkRes (Done None) (fst (removeAll g fileId relToRootPath ps s0))
                (snd (removeAll g fileId relToRootPath ps s0)))
  end.
  { clear. induction ps as [|p ps IH]; intros s; simpl.
    - reflexivity.
    - destruct (Remote.removeParent (rem g) fileId (Id p) s)
        as [err s'] eqn:E.
      rewrite (bind_run _ _ s None s'
        (EvRemoveParent fileId (Id p) err
           :: match err with
              | Some e =>
                  [EvLogErrf ("removeParent:: " ++ fileId ++ " "
                                ++ relToRootPath ++ " " ++ Error e ++ nl)]
              | None => []
              end)).
      2:{ unfold bind, rem_removeParent. cbn beta. rewrite E.
          destruct err; reflexivity. }
      cbn iota beta. rewrite IH.
      destruct (removeAll g fileId relToRootPath ps s') as [sN evs].
      reflexivity. }
  rewrite !(rangeReturn_app _ _ _ _ _ _ (HL s)).
  cbn [rangeReturn]. rewrite !bind_ret_l. cbn [outcome final events ret].
  rewrite app_nil_r. reflexivity.
Qed.

(** ** Further properties of Rename *)

Lemma bind_inv_done {A B} (m : Cmd A) (f : A -> Cmd B) s b :
  outcome (bind m f s) = Done b ->
  exists a, outcome (m s) = Done a /\ outcome (f a (final (m s))) = Done b.
Proof.
  unfold bind. destruct (outcome (m s)) as [a| |]; cbn [outcome];
    try discriminate.
  intros H. exists a. split; [reflexivity | exact H].
Qed.

Lemma last_cons_default {A} (a d : A) l : last (a :: l) d = last l a.
Proof.
  revert a d. induction l as [|x l IH]; intros a d; [reflexivity|].
  change (last (a :: x :: l) d) with (last (x :: l) d).
  rewrite (IH x d), (IH x a). reflexivity.
Qed.

Lemma emits_rem_rename (P : Event -> Prop) g f n :
  (forall r, P (EvRename f n r)) -> emits P (rem_rename g f n).
Proof.
  intros H s. unfold rem_rename.
  destruct (Remote.rename (rem g) f n s). repeat constructor. apply H.
Qed.

Lemma emits_rename_ g src remSrc (byId : bool) :
  emits (fun ev => rename_event ev = true) (rename_ g src remSrc byId).
Proof.
  unfold rename_, FindByPath.
  destruct (nth_error (Sources (opts g)) 1) as [newName|];
    [|apply emits_panic].
  apply emits_bind; [apply emits_query; reflexivity|].
  intros [dupChecks err].
  destruct err; [destruct dupChecks; apply emits_ret|].
  destruct dupChecks as [|d dups]; [apply emits_ret|].
  apply emits_rangeAcc. intros acc dup.
  apply emits_bind; [apply emits_deref|]. intros d0.
  apply emits_bind; [apply emits_deref|]. intros s0.
  destruct (String.eqb (Id d0) (Id s0)); [apply emits_ret|].
  destruct (negb (Force (opts g))).
  - apply emits_bind; [apply emits_emit; reflexivity|].
    intros _. apply emits_ret.
  - apply emits_bind; [apply emits_rem_rename; reflexivity|].
    intros [cp [e|]]; [|apply emits_ret].
    apply emits_bind; [apply emits_emit; reflexivity|].
    intros _. apply emits_ret.
Qed.

(** X14.  When the source of [Rename] cannot be resolved, the error of
    the lookup is returned, prefixed with the source, and nothing else is
    done. *)
Theorem X14_Rename_resolution_failure
  g (byId : bool) src newName rest srcs e s :
  Sources (opts g) = src :: newName :: rest ->
  (if byId then Remote.FindByIdMulti (rem g) src s
   else Remote.FindByPath (rem g) src s) = (srcs, Some e) ->
  Rename g byId s
  = mkRes (Done (Some (Errorf (src ++ ": " ++ Error e)))) s
          [if byId then EvFindByIdMulti src else EvFindByPath src].
Proof.
  intros HS Hres. unfold Rename. rewrite HS. cbn [length Nat.ltb Nat.leb].
  assert (Hr : (if byId then FindByIdMulti g else FindByPath g) src s
               = mkRes (Done (srcs, Some e)) s
                   [if byId then EvFindByIdMulti src else EvFindByPath src]).
  { unfold FindByIdMulti, FindByPath, query.
    destruct byId; rewrite Hres; reflexivity. }
  rewrite (bind_run _ _ _ _ _ _ Hr). reflexivity.
Qed.

Lemma rename__unforced g src f (byId : bool) newName ds err s :
  nth_error (Sources (opts g)) 1 = Some newName ->
  Force (opts g) = false ->
  Remote.FindByPath (rem g) (renameTarget g src byId newName) s
  = (map Some ds, err) ->
  bind (rename_ g src (Some f) byId) (fun err0 =>
    match err0 with
    | Some e => LogErrf (src ++ " " ++ Error e ++ nl)
    | None => ret tt
    end) s
  = mkRes (Done tt) s (unforcedLines g src byId newName ds err f).
Proof.
  intros Hn HF Hdup. unfold unforcedLines, renameTarget in *.
  assert (Hr : rename_ g src (Some f) byId s
    = mkRes (Done err) s
        (EvFindByPath (filepath_Join
                         (if negb byId then parentPather g src
                          else Path (opts g)) (urlToPath newName true))
           :: match err with
              | None =>
                  flat_map (fun d =>
                    if String.eqb (Id d) (Id f) then []
                    else [EvLogErrf
                            (filepath_Join
                               (if negb byId then parentPather g src
                                else Path (opts g)) (urlToPath newName true)
                               ++ " already exists. Use `" ++ ForceKey
                               ++ "` flag to override this behaviour")])
                    ds
              | Some _ => []
              end)).
  { unfold rename_, FindByPath. rewrite Hn, bind_query, Hdup.
    cbn iota beta. destruct err as [e|].
    { destruct (map Some ds); reflexivity. }
    destruct ds as [|d ds]; [reflexivity|]. cbn [map].
    match goal with
    | |- context [rangeAcc _ ?b None] =>
        pose proof (rangeAcc_keep b
          (fun x : option File =>
             match x with
             | Some d0 =>
                 if String.eqb (Id d0) (Id f) then []
                 else [EvLogErrf
                         (filepath_Join
                            (if negb byId then parentPather g src
                             else Path (opts g)) (urlToPath newName true)
                            ++ " already exists. Use `" ++ ForceKey
                            ++ "` flag to override this behaviour")]
             | None => []
             end) s (map Some (d :: ds))) as HL
    end.
    cbn [map] in HL. rewrite HL.
    - cbn [outcome final events]. f_equal. f_equal.
      change (Some d :: map Some ds) with (map Some (d :: ds)).
      generalize (d :: ds). intros l. induction l as [|x l IH].
      + reflexivity.
      + cbn [map flat_map]. rewrite IH. reflexivity.
    - intros acc x Hx.
      change (Some d :: map Some ds) with (map Some (d :: ds)) in Hx.
      apply in_map_iff in Hx. destruct Hx as (d0 & <- & _).
      cbn [deref]. rewrite !bind_ret_l.
      destruct (String.eqb (Id d0) (Id f)); [reflexivity|].
      rewrite HF. cbn [negb]. unfold LogErrf. rewrite bind_emit.
      reflexivity. }
  rewrite (bind_run _ _ _ _ _ _ Hr). destruct err as [e|].
  - reflexivity.
  - cbn. rewrite app_nil_r. reflexivity.
Qed.

(** X15.  Without the force flag, once the source is resolved to existing
    objects and nothing nil is found at the new path, [Rename] returns
    nil and changes nothing: for every resolved source it looks the new
    path up and logs, never returns, what stands in the way, one "already
    exists" line for each other object found there, or the error of that
    lookup with the source in front. *)
Theorem X15_Rename_without_force_only_logs
  g (byId : bool) src newName rest fs ds err s :
  Sources (opts g) = src :: newName :: rest ->
  Force (opts g) = false ->
  (if byId then Remote.FindByIdMulti (rem g) src s
   else Remote.FindByPath (rem g) src s) = (map Some fs, None) ->
  Remote.FindByPath (rem g) (renameTarget g src byId newName) s
  = (map Some ds, err) ->
  Rename g byId s
  = mkRes (Done None) s
          ((if byId then EvFindByIdMulti src else EvFindByPath src)
             :: flat_map (unforcedLines g src byId newName ds err) fs).
Proof.
  intros HS HF Hres Hdup. unfold Rename. rewrite HS.
  cbn [length Nat.ltb Nat.leb].
  assert (Hr : (if byId then FindByIdMulti g else FindByPath g) src s
               = mkRes (Done (map Some fs, None)) s
                   [if byId then EvFindByIdMulti src else EvFindByPath src]).
  { unfold FindByIdMulti, FindByPath, query.
    destruct byId; rewrite Hres; reflexivity. }
  rewrite (bind_run _ _ _ _ _ _ Hr). cbn iota beta.
  assert (Hn : nth_error (Sources (opts g)) 1 = Some newName).
  { rewrite HS. reflexivity. }
  assert (HL : Rename_loop g src byId (map Some fs) s
               = mkRes (Done tt) s
                   (flat_map (unforcedLines g src byId newName ds err) fs)).
  { unfold Rename_loop.
    match goal with
    | |- context [rangeAcc _ ?b tt] =>
        pose proof (rangeAcc_keep b
          (fun x : option File =>
             match x with
             | Some f => unforcedLines g src byId newName ds err f
             | None => []
             end) s (map Some fs)) as HL
    end.
    rewrite HL.
    - f_equal. clear. induction fs as [|f fs IH]; [reflexivity|].
      cbn [map flat_map]. rewrite IH. reflexivity.
    - intros [] x Hx. apply in_map_iff in Hx. destruct Hx as (f & <- & _).
      rewrite bind_ret_l.
      apply (rename__unforced g src f byId newName ds err s Hn HF Hdup). }
  rewrite (bind_run _ _ _ _ _ _ HL). cbn. rewrite app_nil_r. reflexivity.
Qed.

(** X16.  [Rename] only looks paths and identifiers up, calls the store's
    rename and logs lines: it never inserts or removes a parent edge,
    copies, or creates a directory. *)
Theorem X16_Rename_only_renames g (byId : bool) s :
  Forall (fun ev => rename_event ev = true) (events (Rename g byId s)).
Proof.
  revert s. change (emits (fun ev => rename_event ev = true) (Rename g byId)).
  unfold Rename. destruct (Nat.ltb _ 2); [apply emits_ret|].
  destruct (Sources (opts g)) as [|src l]; [apply emits_panic|].
  apply emits_bind.
  - unfold FindByIdMulti, FindByPath.
    destruct byId; apply emits_query; reflexivity.
  - intros [srcs [e|]]; [apply emits_ret|].
    apply emits_bind; [|intros _; apply emits_ret].
    unfold Rename_loop. apply emits_rangeAcc. intros _ remSrc.
    apply emits_bind.
    + destruct remSrc; [apply emits_ret | apply emits_emit; reflexivity].
    + intros _. apply emits_bind; [apply emits_rename_|].
      intros [e|]; [apply emits_emit; reflexivity | apply emits_ret].
Qed.

(** X17.  Without the force flag, a name that is taken by other objects
    is not given to the source: [rename_] logs one "already exists" line
    for each of them, does not call the store's rename, and returns nil. *)
Theorem X17_rename_refused_without_force
  g src remSrc (byId : bool) newName ds s :
  nth_error (Sources (opts g)) 1 = Some newName ->
  Force (opts g) = false ->
  Remote.FindByPath (rem g) (renameTarget g src byId newName) s
  = (map Some ds, None) ->
  Forall (fun d => Id d <> Id remSrc) ds ->
  rename_ g src (Some remSrc) byId s
  = mkRes (Done None) s
          (EvFindByPath (renameTarget g src byId newName)
             :: map (fun _ =>
                       EvLogErrf (renameTarget g src byId newName
                                    ++ " already exists. Use `" ++ ForceKey
                                    ++ "` flag to override this behaviour"))
                    ds).
Proof.
  intros Hn HF Hdup Hne. unfold renameTarget in *.
  unfold rename_, FindByPath. rewrite Hn, bind_query, Hdup.
  cbn iota beta.
  destruct ds as [|d ds]; [reflexivity|]. cbn [map].
  match goal with
  | |- context [rangeAcc _ ?b None] =>
      assert (HL : forall xs, Forall (fun d => Id d <> Id remSrc) xs ->
        forall err0,
        rangeAcc (map Some xs) b err0 s
        = mkRes (Done err0) s
            (map (fun _ =>
                    EvLogErrf (filepath_Join
                                 (if negb byId then parentPather g src
                                  else Path (opts g))
                                 (urlToPath newName true)
                                 ++ " already exists. Use `" ++ ForceKey
                                 ++ "` flag to override this behaviour"))
                 xs))
  end.
  { induction 1 as [|x xs Hx _ IH]; intros err0; cbn [map rangeAcc].
    - reflexivity.
    - rewrite (bind_run _ _ s err0 s
        [EvLogErrf (filepath_Join
                      (if negb byId then parentPather g src
                       else Path (opts g))
                      (urlToPath newName true)
                      ++ " already exists. Use `" ++ ForceKey
                      ++ "` flag to override this behaviour")]).
      + cbn beta. rewrite IH. reflexivity.
      + cbn [deref]. rewrite !bind_ret_l.
        apply String.eqb_neq in Hx. rewrite Hx, HF. cbn [negb].
        unfold LogErrf. rewrite bind_emit. reflexivity. }
  pose proof (HL (d :: ds) Hne None) as Hrun. cbn [map] in Hrun.
  rewrite Hrun. reflexivity.
Qed.

(** X18.  With the force flag, [rename_] calls the store's rename once for
    every other object found at the new path, so several times when
    several are found; a failing call is logged and the loop goes on; the
    result is the error of the last call. *)
Theorem X18_rename_forced_once_per_duplicate
  g src remSrc (byId : bool) newName ds s :
  nth_error (Sources (opts g)) 1 = Some newName ->
  Force (opts g) = true ->
  Remote.FindByPath (rem g) (renameTarget g src byId newName) s
  = (map Some ds, None) ->
  Forall (fun d => Id d <> Id remSrc) ds ->
  exists results s',
    length results = length ds /\
    rename_ g src (Some remSrc) byId s
    = mkRes (Done (last results None)) s'
            (EvFindByPath (renameTarget g src byId newName)
               :: flat_map (renameCall (Id remSrc) newName) results).
Proof.
  intros Hn HF Hdup Hne. unfold renameTarget in *.
  unfold rename_, FindByPath. rewrite Hn.
  destruct ds as [|d ds].
  { exists [], s. split; [reflexivity|]. rewrite bind_query, Hdup.
    reflexivity. }
  match goal with
  | |- context [rangeAcc _ ?b] =>
      assert (HL : forall xs, Forall (fun d => Id d <> Id remSrc) xs ->
        forall err0 s0,
        exists results s',
          length results = length xs /\
          rangeAcc (map Some xs) b err0 s0
          = mkRes (Done (last results err0)) s'
                  (flat_map (renameCall (Id remSrc) newName) results))
  end.
  { induction 1 as [|x xs Hx _ IH]; intros err0 s0; cbn [map rangeAcc].
    - exists [], s0. split; reflexivity.
    - destruct (Remote.rename (rem g) (Id remSrc) newName s0)
        as [[cp res] s1] eqn:E.
      destruct (IH res s1) as (results & s' & Hlen & Hrun).
      exists (res :: results), s'. split; [simpl; rewrite Hlen; reflexivity|].
      rewrite (bind_run _ _ s0 res s1 (renameCall (Id remSrc) newName res)).
      + cbn beta. rewrite Hrun. rewrite last_cons_default. reflexivity.
      + cbn [deref]. rewrite !bind_ret_l.
        apply String.eqb_neq in Hx. rewrite Hx, HF. cbn [negb].
        unfold bind, rem_rename. cbn beta. rewrite E.
        destruct res; reflexivity. }
  destruct (HL (d :: ds) Hne None s) as (results & s' & Hlen & Hrun).
  exists results, s'. split; [exact Hlen|].
  rewrite bind_query, Hdup. cbn iota beta. cbn [map] in *.
  rewrite Hrun. reflexivity.
Qed.

(** X19.  A nil entry at the head of what the lookup of the new path
    returns makes [rename_] panic on [dup.Id], for an existing source as
    well: the entries of that list are not checked for nil. *)
Theorem X19_rename_nil_duplicate_panics
  g src remSrc (byId : bool) newName ds s :
  nth_error (Sources (opts g)) 1 = Some newName ->
  Remote.FindByPath (rem g) (renameTarget g src byId newName) s
  = (None :: ds, None) ->
  rename_ g src remSrc byId s
  = mkRes (Panic "nil pointer dereference: dup.Id") s
          [EvFindByPath (renameTarget g src byId newName)].
Proof.
  intros Hn HF. unfold renameTarget in *.
  unfold rename_, FindByPath. rewrite Hn, bind_query, HF. reflexivity.
Qed.

(** ** Further properties of Copy *)

Lemma emits_outOfFuel {A} P : emits P (outOfFuel (St := St) (A := A)).
Proof. intros s. constructor. Qed.

Lemma emits_mkdirAll (P : Event -> Prop) g p :
  (forall r, P (EvMkdirAll p r)) -> emits P (mkdirAll g p).
Proof.
  intros H s. unfold mkdirAll.
  destruct (remoteMkdirAll g p s). repeat constructor. apply H.
Qed.

Lemma emits_rem_copy (P : Event -> Prop) g n p from :
  (forall r, P (EvCopy n p from r)) -> emits P (rem_copy g n p from).
Proof.
  intros H s. unfold rem_copy.
  destruct (Remote.copy (rem g) n p from s). repeat constructor. apply H.
Qed.

Lemma emits_copy fuel :
  forall g src destPath,
    emits (fun ev => copy_event ev = true) (copy fuel g src destPath).
Proof.
  assert (Hleaf : forall g (src : File) destPath,
    emits (fun ev => copy_event ev = true)
      (let '(destDir, destBase) := pathSplitter g destPath in
       bind (mkdirAll g destDir) (fun x =>
         let '(destParent, destParErr) := x in
         match destParErr with
         | Some e => ret ([], [e])
         | None =>
             bind (deref "destParent.Id" destParent) (fun dp =>
               bind (FindByPath g destPath) (fun y =>
                 let '(destFiles, destErr) := y in
                 match hardError destErr with
                 | Some e => ret ([], [e])
                 | None =>
                     bind (rangeAcc destFiles (copyEach g src)
                             (Id dp, destBase, [], []))
                          (fun z =>
                             let '(_, _, copies, errs) := z in
                             ret (copies, errs))
                 end))
         end))).
  { intros g src destPath. destruct (pathSplitter g destPath) as [dd db].
    apply emits_bind; [apply emits_mkdirAll; reflexivity|].
    intros [dp [e|]]; [apply emits_ret|].
    apply emits_bind; [apply emits_deref|]. intros d.
    apply emits_bind; [apply emits_query; reflexivity|].
    intros [dfs err]. destruct (hardError err); [apply emits_ret|].
    apply emits_bind.
    - apply emits_rangeAcc. intros [[[pid base] cps] errs] df.
      unfold copyEach.
      destruct (match df with
                | Some d0 => if IsDir d0 then (Id d0, Name src)
                             else (pid, base)
                | None => (pid, base)
                end) as [pid' base'].
      apply emits_bind; [apply emits_rem_copy; reflexivity|].
      intros [cp cpErr]. apply emits_ret.
    - intros [[[pid base] cps] errs]. apply emits_ret. }
  induction fuel as [|fuel IH]; intros g [src|] destPath; cbn [copy];
    try apply emits_ret.
  - destruct (negb (IsDir src)); [|apply emits_outOfFuel].
    destruct (negb (Copyable src)); [apply emits_ret | apply Hleaf].
  - destruct (negb (IsDir src)).
    { destruct (negb (Copyable src)); [apply emits_ret | apply Hleaf]. }
    apply emits_bind; [apply emits_mkdirAll; reflexivity|].
    intros [df [e|]]; [apply emits_ret|].
    apply emits_bind; [apply emits_query; reflexivity|]. intros children.
    apply emits_bind; [|intros _; apply emits_ret].
    apply emits_rangeAcc. intros _ child.
    apply emits_bind; [apply emits_deref|]. intros c.
    apply emits_bind; [apply IH|].
    intros [cps [|e errs]]; [apply emits_ret|].
    apply emits_emit. reflexivity.
Qed.

Lemma emits_copy_ fuel g dest destFile sources (byId : bool) :
  emits (fun ev => copy_event ev = true)
        (copy_ fuel g dest destFile sources byId).
Proof.
  unfold copy_.
  destruct (Nat.ltb 1 (length sources) && _); [apply emits_ret|].
  apply emits_bind.
  - destruct (Nat.ltb 1 (length sources)); [|apply emits_ret].
    apply emits_bind; [apply emits_mkdirAll; reflexivity|].
    intros [df e]. apply emits_ret.
  - intros [e|]; [apply emits_ret|].
    apply emits_bind; [|intros _; apply emits_ret].
    apply emits_rangeAcc. intros _ srcPath.
    apply emits_bind.
    + unfold FindByIdMulti, FindByPath.
      destruct byId; apply emits_query; reflexivity.
    + intros [srcFiles [e|]]; [apply emits_emit; reflexivity|].
      apply emits_rangeAcc. intros _ srcFile.
      apply emits_bind; [apply emits_copy|].
      intros [cps [|e errs]]; [apply emits_ret|].
      apply emits_emit. reflexivity.
Qed.

(** X20.  An error of the destination lookup other than "path does not
    exist" ends [Copy] with the "destination:" error: no source is
    resolved and nothing is created or copied. *)
Theorem X20_Copy_destination_lookup_failure
  fuel g (byId : bool) destFiles e s :
  2 <= length (Sources (opts g)) ->
  Remote.FindByPath (rem g) (last (Sources (opts g)) EmptyString) s
  = (destFiles, Some e) ->
  is_ErrPathNotExists e = false ->
  Copy fuel g byId s
  = mkRes (Done (Some (Errorf ("destination: "
                                 ++ last (Sources (opts g)) EmptyString
                                 ++ " err: " ++ Error e))))
          s
          [EvLogln "Processing...";
           EvFindByPath (last (Sources (opts g)) EmptyString)].
Proof.
  intros Hlen HF He. unfold Copy.
  assert (E : Nat.ltb (length (Sources (opts g))) 2 = false).
  { apply Nat.ltb_ge. exact Hlen. }
  rewrite E. unfold Logln. rewrite bind_emit. unfold FindByPath.
  rewrite !bind_query, HF. cbn iota beta. cbn [hardError]. rewrite He.
  reflexivity.
Qed.

(** X21.  A single source that cannot be resolved does not make [Copy]
    fail: for every object the destination resolves to, the source is
    looked up and the error of the lookup is logged with the source in
    front; nothing is created or copied, and [Copy] returns nil. *)
Theorem X21_Copy_unresolved_source_is_logged
  fuel g (byId : bool) src dest destFiles err srcFiles e s :
  Sources (opts g) = [src; dest] ->
  Remote.FindByPath (rem g) dest s = (destFiles, err) ->
  hardError err = None ->
  (if byId then Remote.FindByIdMulti (rem g) src s
   else Remote.FindByPath (rem g) src s) = (srcFiles, Some e) ->
  Copy fuel g byId s
  = mkRes (Done None) s
          (EvLogln "Processing..." :: EvFindByPath dest
             :: flat_map (unresolvedLines src byId e) destFiles).
Proof.
  intros HS HF He Hres. unfold Copy. rewrite HS.
  cbn [length Nat.ltb Nat.leb removelast last].
  unfold Logln. rewrite bind_emit.
  assert (Hq : FindByPath g dest s
               = mkRes (Done (destFiles, err)) s [EvFindByPath dest]).
  { unfold FindByPath, query. rewrite HF. reflexivity. }
  rewrite !(bind_run _ _ _ _ _ _ Hq). cbn iota beta. rewrite He.
  assert (Hr : (if byId then FindByIdMulti g else FindByPath g) src s
               = mkRes (Done (srcFiles, Some e)) s
                   [if byId then EvFindByIdMulti src else EvFindByPath src]).
  { unfold FindByIdMulti, FindByPath, query.
    destruct byId; rewrite Hres; reflexivity. }
  match goal with
  | |- context [rangeAcc destFiles ?b tt] =>
      pose proof (rangeAcc_keep b (unresolvedLines src byId e) s destFiles)
        as HL
  end.
  match type of HL with
  | ?P -> _ => assert (Hb : P)
  end.
  { intros [] x _. destruct x as [df|]; [|reflexivity].
    assert (Hc : copy_ fuel g dest (Some df) [src] byId s
                 = mkRes (Done []) s
                     [if byId then EvFindByIdMulti src else EvFindByPath src;
                      EvLogErrf (src ++ ": " ++ Error e ++ nl)]).
    { unfold copy_. cbn [length Nat.ltb Nat.leb andb]. rewrite bind_ret_l.
      match goal with
      | |- context [rangeAcc [src] ?b tt] =>
          pose proof (rangeAcc_keep b
            (fun p => [if byId then EvFindByIdMulti p else EvFindByPath p;
                       EvLogErrf (p ++ ": " ++ Error e ++ nl)]) s [src])
            as HS1
      end.
      match type of HS1 with
      | ?P -> _ => assert (Hp : P)
      end.
      { intros [] x [<-|[]]. rewrite (bind_run _ _ _ _ _ _ Hr).
        reflexivity. }
      rewrite (bind_run _ _ _ _ _ _ (HS1 Hp tt)). reflexivity. }
    rewrite (bind_run _ _ _ _ _ _ Hc). cbn. reflexivity. }
  rewrite !(bind_run _ _ _ _ _ _ (HL Hb tt)).
  cbn [outcome final events ret app]. try rewrite app_nil_r. reflexivity.
Qed.

(** X22.  With several sources, a destination that resolves only to
    objects that are not directories gets nothing: for each of them
    [Copy] logs "not a directory", and no source is resolved, no directory
    created, nothing copied. *)
Theorem X22_Copy_many_sources_need_a_directory
  fuel g (byId : bool) src1 src2 rest dest destFiles err s :
  Sources (opts g) = src1 :: src2 :: rest ++ [dest] ->
  Remote.FindByPath (rem g) dest s = (destFiles, err) ->
  hardError err = None ->
  Forall (fun df => isFolder df = false) destFiles ->
  Copy fuel g byId s
  = mkRes (Done None) s
          (EvLogln "Processing..." :: EvFindByPath dest
             :: flat_map (notDirLines dest) destFiles).
Proof.
  intros HS HF He Hno. unfold Copy.
  assert (HS' : Sources (opts g) = (src1 :: src2 :: rest) ++ [dest]).
  { rewrite HS. reflexivity. }
  rewrite HS'. rewrite removelast_last, last_last.
  assert (E : Nat.ltb (length ((src1 :: src2 :: rest) ++ [dest])) 2 = false).
  { apply Nat.ltb_ge. simpl. lia. }
  rewrite E. unfold Logln. rewrite bind_emit. unfold FindByPath.
  rewrite !bind_query, HF. cbn iota beta. rewrite He.
  match goal with
  | |- context [rangeAcc destFiles ?b tt] =>
      assert (HL : forall xs, Forall (fun df => isFolder df = false) xs ->
        rangeAcc xs b tt s
        = mkRes (Done tt) s (flat_map (notDirLines dest) xs))
  end.
  { clear HF. induction 1 as [|x xs Hx _ IH]; cbn [rangeAcc flat_map].
    - reflexivity.
    - rewrite (bind_run _ _ s tt s (notDirLines dest x)).
      + cbn beta. rewrite IH. reflexivity.
      + destruct x as [df|]; [|reflexivity]. simpl in Hx.
        unfold copy_. cbn [length Nat.ltb Nat.leb andb]. rewrite Hx.
        cbn [negb]. rewrite bind_ret_l. cbn [rangeAcc].
        unfold LogErrf. rewrite bind_emit. reflexivity. }
  rewrite !(bind_run _ _ _ _ _ _ (HL destFiles Hno)). cbn.
  rewrite app_nil_r. reflexivity.
Qed.

(** X23.  [Copy] only looks paths and identifiers up, lists children,
    creates directories, calls the store's copy and logs lines: it never
    calls [insertParent], [removeParent] or the store's rename. *)
Theorem X23_Copy_only_copies fuel g (byId : bool) s :
  Forall (fun ev => copy_event ev = true) (events (Copy fuel g byId s)).
Proof.
  revert s.
  change (emits (fun ev => copy_event ev = true) (Copy fuel g byId)).
  unfold Copy. destruct (Nat.ltb _ 2); [apply emits_ret|].
  apply emits_bind; [apply emits_emit; reflexivity|]. intros _.
  apply emits_bind; [apply emits_query; reflexivity|].
  intros [destFiles err]. destruct (hardError err); [apply emits_ret|].
  apply emits_bind; [|intros _; apply emits_ret].
  apply emits_rangeAcc. intros _ [df|]; [|apply emits_ret].
  apply emits_bind; [apply emits_copy_|]. intros errs.
  apply emits_rangeAcc. intros _ e. apply emits_emit. reflexivity.
Qed.

(** X24.  A leaf that may not be copied is refused before anything else:
    [copy] returns the "is non-copyable" error without a single call to
    the store, so the destination's parent is not created either. *)
Theorem X24_copy_refuses_non_copyable fuel g src destPath s :
  IsDir src = false ->
  Copyable src = false ->
  copy fuel g (Some src) destPath s
  = mkRes (Done ([], [Errorf (Name src ++ " is non-copyable")])) s [].
Proof.
  intros Hd Hc. destruct fuel; cbn [copy]; rewrite Hd, Hc; reflexivity.
Qed.

(** X25.  When the directory [copy] needs first cannot be created (the
    destination for a directory source, its parent for a leaf), that
    error is the only result: nothing is looked up, listed or copied. *)
Theorem X25_copy_mkdir_failure fuel g src destPath dp e s1 s :
  (IsDir src = false -> Copyable src = true) ->
  remoteMkdirAll g (copyMkdirTarget g src destPath) s = ((dp, Some e), s1) ->
  copy (S fuel) g (Some src) destPath s
  = mkRes (Done ([], [e])) s1
          [EvMkdirAll (copyMkdirTarget g src destPath) (Some e)].
Proof.
  intros Hc Hmk. unfold copyMkdirTarget in *. cbn [copy].
  destruct (IsDir src) eqn:Hd; cbn [negb].
  - assert (Hm : mkdirAll g destPath s
                 = mkRes (Done (dp, Some e)) s1
                         [EvMkdirAll destPath (Some e)]).
    { unfold mkdirAll. rewrite Hmk. reflexivity. }
    rewrite (bind_run _ _ _ _ _ _ Hm). reflexivity.
  - rewrite (Hc eq_refl). cbn [negb].
    destruct (pathSplitter g destPath) as [destDir destBase]. cbn [fst] in *.
    assert (Hm : mkdirAll g destDir s
                 = mkRes (Done (dp, Some e)) s1
                         [EvMkdirAll destDir (Some e)]).
    { unfold mkdirAll. rewrite Hmk. reflexivity. }
    rewrite (bind_run _ _ _ _ _ _ Hm). reflexivity.
Qed.

Lemma copyEach_keep g src pid base cps errs df s :
  isFolder df = false ->
  exists cps' errs' s' res,
    copyEach g src (pid, base, cps, errs) df s
    = mkRes (Done (pid, base, cps', errs')) s' [EvCopy base pid src res].
Proof.
  intros Hno. unfold copyEach.
  assert (E : match df with
              | Some d => if IsDir d then (Id d, Name src) else (pid, base)
              | None => (pid, base)
              end = (pid, base)).
  { destruct df as [d|]; [|reflexivity]. simpl in Hno. rewrite Hno.
    reflexivity. }
  rewrite E. unfold bind, rem_copy.
  destruct (Remote.copy (rem g) base pid src s) as [[cp cpErr] s'].
  cbn. eexists _, _, _, _. reflexivity.
Qed.

Lemma copyEach_into g src vars d s :
  IsDir d = true ->
  exists cps' errs' s' res,
    copyEach g src vars (Some d) s
    = mkRes (Done (Id d, Name src, cps', errs')) s'
            [EvCopy (Name src) (Id d) src res].
Proof.
  intros Hd. destruct vars as [[[pid base] cps] errs]. unfold copyEach.
  rewrite Hd. unfold bind, rem_copy.
  destruct (Remote.copy (rem g) (Name src) (Id d) src s) as [[cp cpErr] s'].
  cbn. eexists _, _, _, _. reflexivity.
Qed.

Lemma copy_loop_keep g src destFiles :
  Forall (fun df => isFolder df = false) destFiles ->
  forall pid base cps errs s,
  exists vars' s' evs,
    rangeAcc destFiles (copyEach g src) (pid, base, cps, errs) s
    = mkRes (Done vars') s' evs /\
    length evs = length destFiles /\
    Forall (fun ev => exists res, ev = EvCopy base pid src res) evs.
Proof.
  induction 1 as [|df destFiles Hdf _ IH]; intros pid base cps errs s;
    cbn [rangeAcc].
  - exists (pid, base, cps, errs), s, []. repeat split. constructor.
  - destruct (copyEach_keep g src pid base cps errs df s Hdf)
      as (cps1 & errs1 & s1 & res & H1).
    destruct (IH pid base cps1 errs1 s1) as (v2 & s2 & evs & H2 & Hlen & Hall).
    exists v2, s2, (EvCopy base pid src res :: evs).
    rewrite (bind_run _ _ _ _ _ _ H1), H2. split; [reflexivity|]. split.
    + simpl. rewrite Hlen. reflexivity.
    + constructor; [exists res; reflexivity | exact Hall].
Qed.

Lemma copy_leaf_run fuel g src destPath dp s1 destFiles destErr s :
  IsDir src = false ->
  Copyable src = true ->
  remoteMkdirAll g (fst (pathSplitter g destPath)) s = ((Some dp, None), s1) ->
  Remote.FindByPath (rem g) destPath s1 = (destFiles, destErr) ->
  hardError destErr = None ->
  copy fuel g (Some src) destPath s
  = let r := rangeAcc destFiles (copyEach g src)
               (Id dp, snd (pathSplitter g destPath), [], []) s1 in
    mkRes (match outcome r with
           | Done (_, _, copies, errs) => Done (copies, errs)
           | Panic why => Panic why
           | OutOfFuel => OutOfFuel
           end)
          (final r)
          (EvMkdirAll (fst (pathSplitter g destPath)) None
             :: EvFindByPath destPath :: events r).
Proof.
  intros His Hcp Hmk HF Herr.
  destruct fuel; cbn [copy]; rewrite His, Hcp; cbn [negb];
    destruct (pathSplitter g destPath) as [destDir destBase];
    cbn [fst snd] in *;
    (assert (Hm : mkdirAll g destDir s
                  = mkRes (Done (Some dp, None)) s1
                          [EvMkdirAll destDir None])
       by (unfold mkdirAll; rewrite Hmk; reflexivity));
    rewrite (bind_run _ _ _ _ _ _ Hm); cbn iota beta; cbn [deref];
    rewrite !bind_ret_l; unfold FindByPath; rewrite !bind_query, HF;
    cbn iota beta; rewrite Herr; cbv zeta; unfold bind;
    destruct (rangeAcc destFiles (copyEach g src)
                (Id dp, destBase, [], []) s1) as [o s' evs];
    cbn [outcome final events];
    destruct o as [[[[pid base] cps] errs]| |]; cbn;
    try rewrite app_nil_r; reflexivity.
Qed.

(** X26.  When none of the objects found at the destination path is a
    directory, a leaf is copied into the destination's parent under the
    destination's base name, with one call of the store's copy for every
    entry found, existing files and nil entries alike. *)
Theorem X26_copy_beside_what_is_there
  fuel g src destPath dp s1 destFiles destErr s :
  IsDir src = false ->
  Copyable src = true ->
  remoteMkdirAll g (fst (pathSplitter g destPath)) s = ((Some dp, None), s1) ->
  Remote.FindByPath (rem g) destPath s1 = (destFiles, destErr) ->
  hardError destErr = None ->
  Forall (fun df => isFolder df = false) destFiles ->
  exists evs,
    events (copy fuel g (Some src) destPath s)
    = EvMkdirAll (fst (pathSplitter g destPath)) None
        :: EvFindByPath destPath :: evs /\
    length evs = length destFiles /\
    Forall (fun ev =>
              exists res,
                ev = EvCopy (snd (pathSplitter g destPath)) (Id dp) src res)
           evs.
Proof.
  intros His Hcp Hmk HF Herr Hno.
  rewrite (copy_leaf_run fuel _ _ _ _ _ _ _ _ His Hcp Hmk HF Herr).
  destruct (copy_loop_keep g src destFiles Hno (Id dp)
              (snd (pathSplitter g destPath)) [] [] s1)
    as (v & s' & evs & Hrun & Hlen & Hall).
  exists evs. rewrite Hrun. cbn [events]. repeat split; assumption.
Qed.

(** X27.  The directory found first at the destination path also takes
    the copies made for the entries after it: once [copy] switched to a
    directory and the source's name, the later entries that are not
    directories are copied into that same directory under that name. *)
Theorem X27_copy_keeps_the_directory_it_switched_to
  fuel g src destPath dp s1 d rest destErr s :
  IsDir src = false ->
  Copyable src = true ->
  remoteMkdirAll g (fst (pathSplitter g destPath)) s = ((Some dp, None), s1) ->
  Remote.FindByPath (rem g) destPath s1 = (Some d :: rest, destErr) ->
  hardError destErr = None ->
  IsDir d = true ->
  Forall (fun df => isFolder df = false) rest ->
  exists evs,
    events (copy fuel g (Some src) destPath s)
    = EvMkdirAll (fst (pathSplitter g destPath)) None
        :: EvFindByPath destPath :: evs /\
    length evs = S (length rest) /\
    Forall (fun ev => exists res, ev = EvCopy (Name src) (Id d) src res) evs.
Proof.
  intros His Hcp Hmk HF Herr Hd Hno.
  rewrite (copy_leaf_run fuel _ _ _ _ _ _ _ _ His Hcp Hmk HF Herr).
  cbn [rangeAcc].
  destruct (copyEach_into g src
              (Id dp, snd (pathSplitter g destPath), [], []) d s1 Hd)
    as (cps1 & errs1 & s2 & res & H1).
  destruct (copy_loop_keep g src rest Hno (Id d) (Name src) cps1 errs1 s2)
    as (v & s' & evs & Hrun & Hlen & Hall).
  exists (EvCopy (Name src) (Id d) src res :: evs).
  cbv zeta. rewrite (bind_run _ _ _ _ _ _ H1), Hrun. cbn [events app].
  split; [reflexivity|]. split.
  - simpl. rewrite Hlen. reflexivity.
  - constructor; [exists res; reflexivity | exact Hall].
Qed.

(** X28.  What goes wrong for a child of a copied directory is logged
    where it happens and never reaches the caller: when every child is a
    leaf that may not be copied, the directory copy creates its
    destination, lists the children, logs one line for each of them, and
    returns the created directory and no error. *)
Theorem X28_copy_directory_hides_child_errors
  fuel g src destPath df s1 cs s :
  IsDir src = true ->
  remoteMkdirAll g destPath s = ((df, None), s1) ->
  Remote.findChildren (rem g) (Id src) false s1 = map Some cs ->
  Forall (fun c => IsDir c = false /\ Copyable c = false) cs ->
  copy (S fuel) g (Some src) destPath s
  = mkRes (Done ([df], [])) s1
          (EvMkdirAll destPath None :: EvFindChildren (Id src)
             :: map (childLine destPath) cs).
Proof.
  intros His Hmk Hch Hcs. cbn [copy]. rewrite His. cbn [negb].
  assert (Hm : mkdirAll g destPath s
               = mkRes (Done (df, None)) s1 [EvMkdirAll destPath None]).
  { unfold mkdirAll. rewrite Hmk. reflexivity. }
  rewrite (bind_run _ _ _ _ _ _ Hm). cbn iota beta.
  unfold findChildren. rewrite bind_query, Hch.
  match goal with
  | |- context [rangeAcc _ ?b tt] =>
      pose proof (rangeAcc_keep b
        (fun x : option File =>
           match x with
           | Some c => [childLine destPath c]
           | None => []
           end) s1 (map Some cs)) as HL
  end.
  match type of HL with
  | ?P -> _ => assert (Hb : P)
  end.
  { intros [] x Hx. apply in_map_iff in Hx. destruct Hx as (c & <- & Hc).
    rewrite Forall_forall in Hcs. destruct (Hcs c Hc) as [Hd Hcp].
    cbn [deref]. rewrite bind_ret_l.
    assert (Hcopy : copy fuel g (Some c) (sepJoin "/" [destPath; Name c]) s1
                    = mkRes (Done ([], [Errorf (Name c ++ " is non-copyable")]))
                            s1 []).
    { destruct fuel; cbn [copy]; rewrite Hd, Hcp; reflexivity. }
    rewrite (bind_run _ _ _ _ _ _ Hcopy). reflexivity. }
  rewrite !(bind_run _ _ _ _ _ _ (HL Hb tt)).
  cbn [outcome final events ret app]. rewrite app_nil_r.
  f_equal. f_equal. f_equal. clear.
  induction cs as [|c cs IH]; [reflexivity|].
  cbn [map flat_map app]. rewrite IH. reflexivity.
Qed.

End Drive.

(** * Concrete runs

    The commands on the in-memory store of [TestStore], with the helpers
    of that module in the place of the package's own. *)

Import TestStore.
Import FaultyStore.

Local Abbreviation run_move_ :=
  (move_ TestStore.t quote ForceKey notExistsText join).
Local Abbreviation run_move :=
  (move TestStore.t quote ForceKey notExistsText join).
Local Abbreviation run_Move :=
  (Move TestStore.t commonPrefix quote ForceKey notExistsText join).
Local Abbreviation run_Move_loop :=
  (Move_loop TestStore.t commonPrefix quote ForceKey notExistsText join).
Local Abbreviation run_Rename :=
  (Rename TestStore.t urlToPath ForceKey notExistsText join).
Local Abbreviation run_Copy := (Copy TestStore.t sepJoin notExistsText).
Local Abbreviation run_copy := (copy TestStore.t sepJoin notExistsText).

(** Moving [docs/report.txt] into [archive] moves it. *)
Example move_report_to_archive :
  let r := run_Move (commands ["docs/report.txt"; "archive"] false) false
             store0 in
  outcome r = Done None /\
  hasEdge "id-report" "id-archive" (final r) = true /\
  hasEdge "id-report" "id-docs" (final r) = false.
Proof. vm_compute. repeat split. Qed.

(** C1 does not hold of the code as it is stated.  [report.txt] already is at
    [archive/report.txt]; moving it there again is answered with the
    "to self" error, not with success. *)
Lemma C1_counterexample :
  let opt := moveOf "docs/report.txt" "archive" report archive in
  let g := commands ["docs/report.txt"; "archive"] false in
  In (Some report)
     (fst (Remote.FindByPath (rem g) (join (dest opt) (Name report))
             store_moved)) /\
  outcome (run_move_ g opt store_moved)
  = Done (Some (Errorf
      "move: trying to move fileId:'id-report' to self fileId:'id-report'")) /\
  outcome (run_move_ g opt store_moved) <> Done None.
Proof.
  vm_compute. split; [left; reflexivity|]. split; [reflexivity|].
  discriminate.
Qed.

Lemma C1_witness :
  let opt := moveOf "docs/report.txt" "archive" report archive in
  let g := commands ["docs/report.txt"; "archive"] false in
  (exists e, outcome (run_move_ g opt store_moved) = Done (Some e)) /\
  final (run_move_ g opt store_moved) = store_moved /\
  Forall (fun ev => is_mutation ev = false)
         (events (run_move_ g opt store_moved)).
Proof.
  apply (C1_move_onto_itself_is_an_error TestStore.t quote ForceKey
           notExistsText join
           (commands ["docs/report.txt"; "archive"] false)
           (moveOf "docs/report.txt" "archive" report archive)
           report archive report store_moved).
  - reflexivity.
  - reflexivity.
  - left. reflexivity.
  - reflexivity.
Defined.

Lemma C2_witness :
  let g := commands ["docs/report.txt"; "docs"; "docs/sub"] false in
  (exists e, outcome (run_Move g false store0) = Done (Some e)) /\
  final (run_Move g false store0)
  = final (run_Move_loop g false "docs/sub" ["docs/report.txt"] store0) /\
  events (run_Move g false store0)
  = events (run_Move_loop g false "docs/sub" ["docs/report.txt"] store0) /\
  (Forall (fun x => commonPrefix x "docs/sub" <> x) ["docs/report.txt"] ->
   outcome (run_Move g false store0)
   = Done (Some (Errorf ("docs" ++ " cannot be nested into " ++ "docs/sub")))).
Proof.
  apply (C2_Move_rejects_nesting TestStore.t commonPrefix quote ForceKey
           notExistsText join
           (commands ["docs/report.txt"; "docs"; "docs/sub"] false) false
           ["docs/report.txt"] "docs" [] "docs/sub" store0).
  - reflexivity.
  - reflexivity.
Defined.

(** C5 does not hold of the code as it is stated.  The first argument is nested in the
    destination, so [Move] returns at once: the second argument, which has
    nothing wrong, is never looked up. *)
Lemma C5_counterexample :
  let g := commands ["docs"; "docs/notes.txt"; "docs/sub"] false in
  In "docs/notes.txt" (removelast (Sources (opts g))) /\
  outcome (run_Move g false store0)
  = Done (Some (Errorf "docs cannot be nested into docs/sub")) /\
  ~ In (EvFindByPath "docs/notes.txt") (events (run_Move g false store0)).
Proof.
  vm_compute. split; [right; left; reflexivity|]. split; [reflexivity|].
  intros [].
Qed.

Lemma C5_witness :
  let g := commands ["missing.txt"; "docs/report.txt"; "docs"; "docs/sub"]
             false in
  let opt := mkMoveOpt "docs/report.txt" "docs/sub" false None None in
  let r0 := run_Move_loop g false "docs/sub" ["missing.txt"] store0 in
  let r1 := run_Move_loop g false "docs/sub"
              ["missing.txt"; "docs/report.txt"] store0 in
  (exists errs evs,
     outcome (run_move g opt (final r0)) = Done errs /\
     events (run_Move g false store0)
     = events r0 ++ events (run_move g opt (final r0))
         ++ map (movePrint notExistsText "docs/report.txt") errs ++ evs /\
     In (EvFindByPath "docs/report.txt") (events (run_Move g false store0))) /\
  ((exists e, outcome (run_Move g false store0) = Done (Some e)) /\
   final (run_Move g false store0) = final r1 /\
   events (run_Move g false store0) = events r1).
Proof.
  split.
  - apply (proj1 (C5_Move_attempts_every_source TestStore.t commonPrefix
                    quote ForceKey notExistsText join
                    (commands ["missing.txt"; "docs/report.txt"; "docs";
                               "docs/sub"] false)
                    false ["missing.txt"] "docs/report.txt" ["docs"]
                    "docs/sub" store0 eq_refl)).
    + repeat constructor; vm_compute; discriminate.
    + vm_compute. discriminate.
  - apply (proj2 (C5_Move_attempts_every_source TestStore.t commonPrefix
                    quote ForceKey notExistsText join
                    (commands ["missing.txt"; "docs/report.txt"; "docs";
                               "docs/sub"] false)
                    false ["missing.txt"; "docs/report.txt"] "docs" []
                    "docs/sub" store0 eq_refl)).
    reflexivity.
Defined.

(** A batch whose first argument does not exist: its error is printed
    and the second argument is moved all the same. *)
Example Move_goes_on_after_a_failed_source :
  let r := run_Move
             (commands ["missing.txt"; "docs/report.txt"; "archive"] false)
             false store0 in
  outcome r = Done None /\
  In (EvPrintf ("move: missing.txt: src('missing.txt') remote path doesn't exist"
                  ++ nl)) (events r) /\
  hasEdge "id-report" "id-archive" (final r) = true.
Proof. vm_compute. repeat split. right. left. reflexivity. Qed.

(** C6 does not hold of the code as it is stated.  The old parent path resolves
    to [docs] and to a nil entry, and every [removeParent] call of the
    store fails: the new edge is inserted, the failed removal is logged,
    and the pair is reported as failed all the same, with the error of
    the nil entry. *)
Lemma C6_counterexample :
  let opt := moveOf "docs/report.txt" "archive" report archive in
  let g := commands ["docs/report.txt"; "archive"] false in
  let r := run_move_ g opt store_nilparent_rmfail in
  byId opt = false /\
  In (EvInsertParent "id-report" "id-archive" None) (events r) /\
  In (EvRemoveParent "id-report" "id-docs" (Some (Errorf "backend failure")))
     (events r) /\
  In (EvLogErrf ("removeParent:: id-report docs/report.txt backend failure"
                   ++ nl)) (events r) /\
  outcome r = Done (Some (Errorf "non existant parent 'docs' for src")) /\
  outcome r <> Done None.
Proof.
  vm_compute. split; [reflexivity|].
  split; [right; right; left; reflexivity|].
  split; [do 4 right; left; reflexivity|].
  split; [do 5 right; left; reflexivity|].
  split; [reflexivity|]. discriminate.
Qed.

(** The run of C6: every [removeParent] call of the store fails. *)
Lemma C6_witness :
  let opt := moveOf "docs/report.txt" "archive" report archive in
  let g := commands ["docs/report.txt"; "archive"] false in
  let r := run_move_ g opt store_rmfail in
  outcome r = Done None /\
  (forall p, In p [docs] ->
     exists res, In (EvRemoveParent (Id report) (Id p) res) (events r)) /\
  (forall pid e,
     In (EvRemoveParent (Id report) pid (Some e)) (events r) ->
     In (EvLogErrf ("removeParent:: " ++ Id report ++ " " ++ src opt ++ " "
                      ++ Error notExistsText e ++ nl))
        (events r)) /\
  (forall ev, In ev (events r) -> is_mutation ev = true ->
     ev = EvInsertParent (Id report) (Id archive) None \/
     exists p res, In p [docs] /\ ev = EvRemoveParent (Id report) (Id p) res).
Proof.
  apply (C6_move_failed_removal_is_only_logged TestStore.t quote ForceKey
           notExistsText join
           (commands ["docs/report.txt"; "archive"] false)
           (moveOf "docs/report.txt" "archive" report archive)
           report archive [docs] store_rmfail).
  - reflexivity.
  - reflexivity.
  - reflexivity.
  - vm_compute. right. right. left. reflexivity.
  - reflexivity.
Defined.

(** In that run the removal fails, the failure is logged, the move reports
    success and the file ends up under both directories. *)
Example failed_removal_leaves_both_edges :
  let r := run_move_ (commands ["docs/report.txt"; "archive"] false)
             (moveOf "docs/report.txt" "archive" report archive)
             store_rmfail in
  outcome r = Done None /\
  events r
  = [EvFindByPath "docs"; EvFindByPath "archive/report.txt";
     EvInsertParent "id-report" "id-archive" None;
     EvFindByPath "docs";
     EvRemoveParent "id-report" "id-docs" (Some (Errorf "backend failure"));
     EvLogErrf ("removeParent:: id-report docs/report.txt backend failure"
                  ++ nl)] /\
  hasEdge "id-report" "id-archive" (final r) = true /\
  hasEdge "id-report" "id-docs" (final r) = true.
Proof. vm_compute. repeat split. Qed.



(** In that forced run the new edge is inserted and the old one
    removed. *)
Example forced_move_over_a_duplicate :
  let r := run_move_ (commands ["docs/report.txt"; "archive"] true)
             (moveOf "docs/report.txt" "archive" report archive)
             store_dup in
  outcome r = Done None /\
  events r
  = [EvFindByPath "docs"; EvFindByPath "archive/report.txt";
     EvInsertParent "id-report" "id-archive" None;
     EvFindByPath "docs";
     EvRemoveParent "id-report" "id-docs" None] /\
  hasEdge "id-report" "id-archive" (final r) = true /\
  hasEdge "id-report" "id-docs" (final r) = false.
Proof. vm_compute. repeat split. Qed.

(** The run of C8: copying the leaf [notes.txt] onto the existing
    directory [archive] places a copy named [notes.txt] inside it. *)
Lemma C8_witness :
  let g := commands ["docs/notes.txt"; "archive"] false in
  let r := run_copy 0 g (Some notes) "archive" store0 in
  (exists res, In (EvCopy (Name notes) (Id archive) notes res) (events r)) /\
  (exists v, outcome r = Done v) /\
  (forall ev, In ev (events r) -> is_mutation ev = true ->
     ev = EvMkdirAll (fst (pathSplitter g "archive")) None \/
     exists n p res, ev = EvCopy n p notes res).
Proof.
  apply (C8_copy_into_existing_directory TestStore.t sepJoin notExistsText 0
           (commands ["docs/notes.txt"; "archive"] false)
           notes "archive"
           (mkFile "dir-" EmptyString true false) store0
           [Some archive] None archive store0).
  - reflexivity.
  - reflexivity.
  - reflexivity.
  - reflexivity.
  - reflexivity.
  - left. reflexivity.
  - reflexivity.
Defined.


(** The run of C10: the only source does not exist; the error is printed
    and [Move] returns nil. *)
Lemma C10_witness :
  let g := commands ["missing.txt"; "archive"] false in
  outcome (run_Move g false store0) = Done None /\
  (forall pre src post errs e,
     removelast (Sources (opts g)) = pre ++ src :: post ->
     outcome (run_move g
                (mkMoveOpt src (last (Sources (opts g)) EmptyString)
                   false None None)
                (final (run_Move_loop g false
                          (last (Sources (opts g)) EmptyString) pre store0)))
     = Done errs ->
     In e errs ->
     In (EvPrintf ("move: " ++ src ++ ": " ++ Error notExistsText e ++ nl))
        (events (run_Move g false store0))).
Proof.
  apply (C10_Move_returns_nil TestStore.t commonPrefix quote ForceKey
           notExistsText join
           (commands ["missing.txt"; "archive"] false) false store0).
  - simpl. lia.
  - repeat constructor; vm_compute; discriminate.
Defined.

(** C3: the code at a failing input.  Nothing is at [docs/summary.txt],
    yet renaming [docs/report.txt] to [summary.txt] never reaches the
    store's rename: the lookup of the new path is the last call made, and
    its "does not exist" answer is logged as the error of the rename. *)
Theorem C3_Rename_without_conflict_renames_nothing :
  let g := commands ["docs/report.txt"; "summary.txt"] false in
  outcome (run_Rename g false store0) = Done None /\
  final (run_Rename g false store0) = store0 /\
  events (run_Rename g false store0)
  = [EvFindByPath "docs/report.txt";
     EvFindByPath "docs/summary.txt";
     EvLogErrf ("docs/report.txt remote path doesn't exist" ++ nl)].
Proof. vm_compute. repeat split. Qed.

(** C4: the code at a failing input.  Nothing is at [archive/copy.txt];
    copying the single source [docs/report.txt] there looks the
    destination up and stops: no directory is made and nothing is
    copied. *)
Theorem C4_Copy_to_absent_destination_copies_nothing :
  let g := commands ["docs/report.txt"; "archive/copy.txt"] false in
  run_Copy 3 g false store0
  = mkRes (Done None) store0
          [EvLogln "Processing..."; EvFindByPath "archive/copy.txt"].
Proof. vm_compute. reflexivity. Qed.


(** * Runs of the further properties *)

Local Abbreviation run_removeParent :=
  (removeParent TestStore.t notExistsText).
Local Abbreviation run_rename_ :=
  (rename_ TestStore.t urlToPath ForceKey notExistsText join).

(** The run of X1: one argument only. *)
Lemma X1_witness :
  let g := commands ["docs"] false in
  run_Move g false store0
  = mkRes (Done (Some (Errorf
             ("move: expected <src> [src...] <dest>, instead got: "
                ++ fmtStrings ["docs"])))) store0 [] /\
  run_Rename g false store0
  = mkRes (Done (Some (Errorf "rename: expecting <src> <newname>")))
          store0 [] /\
  run_Copy 0 g false store0
  = mkRes (Done (Some (Errorf
             ("expecting src [src1....] dest got: " ++ fmtStrings ["docs"]))))
          store0 [].
Proof.
  apply (X1_too_few_arguments TestStore.t commonPrefix quote urlToPath
           sepJoin ForceKey notExistsText join 0
           (commands ["docs"] false) false store0).
  simpl. lia.
Defined.

(** The runs of X5: the source of the move does not exist; the
    destination does not. *)
Lemma X5_witness :
  let g := commands ["missing.txt"; "archive"] false in
  let opt := mkMoveOpt "missing.txt" "archive" false None None in
  let g' := commands ["docs/report.txt"; "nowhere"] false in
  let opt' := mkMoveOpt "docs/report.txt" "nowhere" false None None in
  run_move g opt store0
  = mkRes (Done [Errorf ("src('" ++ "missing.txt" ++ "') "
                           ++ Error notExistsText ErrPathNotExists)])
          store0 [EvFindByPath "missing.txt"] /\
  run_move g' opt' store0
  = mkRes (Done [Errorf ("dest: '" ++ "nowhere" ++ "' "
                           ++ Error notExistsText ErrPathNotExists)])
          store0 [EvFindByPath "docs/report.txt"; EvFindByPath "nowhere"].
Proof.
  split.
  - refine (proj1 (X5_move_resolution_failure TestStore.t quote ForceKey
                     notExistsText join
                     (commands ["missing.txt"; "archive"] false)
                     (mkMoveOpt "missing.txt" "archive" false None None)
                     [] (Some ErrPathNotExists) store0 _)
                  ErrPathNotExists _); reflexivity.
  - refine (proj2 (X5_move_resolution_failure TestStore.t quote ForceKey
                     notExistsText join
                     (commands ["docs/report.txt"; "nowhere"] false)
                     (mkMoveOpt "docs/report.txt" "nowhere" false None None)
                     [Some report] None store0 _)
                  [] ErrPathNotExists _ _); reflexivity.
Defined.

(** The run of X6: the destination of the move is a file. *)
Lemma X6_witness :
  let g := commands ["docs/report.txt"; "docs/notes.txt"] false in
  let opt := mkMoveOpt "docs/report.txt" "docs/notes.txt" false None None in
  run_move g opt store0
  = mkRes (Done [notAFolderErr "docs/notes.txt"]) store0
          [EvFindByPath "docs/report.txt"; EvFindByPath "docs/notes.txt"].
Proof.
  apply (X6_move_needs_a_folder TestStore.t quote ForceKey notExistsText join
           (commands ["docs/report.txt"; "docs/notes.txt"] false)
           (mkMoveOpt "docs/report.txt" "docs/notes.txt" false None None)
           [Some report] [Some notes] store0).
  - reflexivity.
  - reflexivity.
  - repeat constructor.
Defined.

(** The run of X7: the source resolves to a nil entry. *)
Lemma X7_witness :
  let g := commands ["ghost.txt"; "docs"] false in
  let opt := mkMoveOpt "ghost.txt" "docs" false None None in
  let s := TestStore.mk (("ghost.txt", [None]) :: paths store0)
                        (edges store0) false in
  run_move g opt s
  = mkRes (Done [srcNotFoundErr "ghost.txt"]) s
          [EvFindByPath "ghost.txt"; EvFindByPath "docs"].
Proof.
  apply (X7_move_nil_sources TestStore.t quote ForceKey notExistsText join
           (commands ["ghost.txt"; "docs"] false)
           (mkMoveOpt "ghost.txt" "docs" false None None)
           [None] [Some docs]
           (TestStore.mk (("ghost.txt", [None]) :: paths store0)
                         (edges store0) false)).
  - reflexivity.
  - reflexivity.
  - repeat constructor.
Defined.

(** The run of X8: [docs/report.txt] is moved into [docs]. *)
Lemma X8_witness :
  let g := commands ["docs/report.txt"; "docs"] false in
  let opt := moveOf "docs/report.txt" "docs" report docs in
  run_move_ g opt store0
  = mkRes (Done (Some (Errorf
             ("src and dest are the same srcParentId " ++ quote "id-docs"
                ++ " destParentId " ++ quote "id-docs"))))
          store0 [EvFindByPath "docs"].
Proof.
  apply (X8_move_into_own_parent_is_refused TestStore.t quote ForceKey
           notExistsText join
           (commands ["docs/report.txt"; "docs"] false)
           (moveOf "docs/report.txt" "docs" report docs)
           report docs docs store0).
  - reflexivity.
  - reflexivity.
  - reflexivity.
  - reflexivity.
  - left. reflexivity.
  - reflexivity.
Defined.

(** The run of X9: [archive] is moved into [archive]. *)
Lemma X9_witness :
  let g := commands ["archive"; "archive"] false in
  let opt := moveOf "archive" "archive" archive archive in
  (exists e, outcome (run_move_ g opt store0) = Done (Some e)) /\
  final (run_move_ g opt store0) = store0 /\
  Forall (fun ev => is_mutation ev = false)
         (events (run_move_ g opt store0)).
Proof.
  apply (X9_move_into_itself_is_refused TestStore.t quote ForceKey
           notExistsText join
           (commands ["archive"; "archive"] false)
           (moveOf "archive" "archive" archive archive)
           archive archive store0).
  - reflexivity.
  - reflexivity.
  - reflexivity.
Defined.

(** The run of X10: the store refuses every change. *)
Lemma X10_witness :
  let g := commands_ro ["docs/report.txt"; "archive"] false in
  let opt := moveOf "docs/report.txt" "archive" report archive in
  let e := Errorf "read-only store" in
  outcome (run_move_ g opt store0) = Done (Some e) /\
  Forall (fun ev => is_removeParent ev = false)
         (events (run_move_ g opt store0)) /\
  exists ev,
    events (run_move_ g opt store0)
    = ev ++ [EvInsertParent (Id report) (Id archive) (Some e)] /\
    Forall (fun ev0 => is_mutation ev0 = false) ev.
Proof.
  apply (X10_move_failed_insertion_stops TestStore.t quote ForceKey
           notExistsText join
           (commands_ro ["docs/report.txt"; "archive"] false)
           (moveOf "docs/report.txt" "archive" report archive)
           report archive "id-report" "id-archive"
           (Errorf "read-only store") store0).
  - reflexivity.
  - reflexivity.
  - vm_compute. right. right. left. reflexivity.
Defined.

(** The run of X11: a move that succeeds. *)
Lemma X11_witness :
  let g := commands ["docs/report.txt"; "archive"] false in
  let opt := moveOf "docs/report.txt" "archive" report archive in
  byId opt = false /\
  "id-report" = Id report /\
  exists before after,
    events (run_move_ g opt store0)
    = before ++ EvInsertParent (Id report) (Id archive) None :: after /\
    Forall (fun ev => is_mutation ev = false) before /\
    In (EvRemoveParent "id-report" "id-docs" None) after.
Proof.
  apply (X11_move_removes_only_after_inserting TestStore.t quote ForceKey
           notExistsText join
           (commands ["docs/report.txt"; "archive"] false)
           (moveOf "docs/report.txt" "archive" report archive)
           report archive "id-report" "id-docs" None store0).
  - reflexivity.
  - reflexivity.
  - vm_compute. do 4 right. left. reflexivity.
Defined.

(** The run of X12: a file directly under the root has no parent path
    to look up, so the move reports the failed lookup after the new
    edge was inserted. *)
Lemma X12_witness :
  let g := commands ["report.txt"; "archive"] false in
  let opt := moveOf "report.txt" "archive" report archive in
  let r := run_move_ g opt store_root in
  outcome r = Done (Some ErrPathNotExists) /\
  final r
  = snd (Remote.insertParent (rem g) (Id report) (Id archive) store_root) /\
  Forall (fun ev => is_removeParent ev = false) (events r).
Proof.
  apply (X12_move_old_parent_lookup_failure TestStore.t quote ForceKey
           notExistsText join
           (commands ["report.txt"; "archive"] false)
           (moveOf "report.txt" "archive" report archive)
           report archive [] ErrPathNotExists store_root).
  - reflexivity.
  - reflexivity.
  - reflexivity.
  - vm_compute. right. right. left. reflexivity.
  - reflexivity.
Defined.

(** The run of X13: the second entry of the parent lookup is nil. *)
Lemma X13_witness :
  let g := commands ["docs/report.txt"; "archive"] false in
  run_removeParent g "id-report" "docs/report.txt" store_nilparent
  = mkRes (Done (Some (Errorf ("non existant parent '" ++ "docs"
                                 ++ "' for src"))))
      (fst (removeAll TestStore.t notExistsText g "id-report"
              "docs/report.txt" [docs] store_nilparent))
      (EvFindByPath "docs"
         :: snd (removeAll TestStore.t notExistsText g "id-report"
                   "docs/report.txt" [docs] store_nilparent)).
Proof.
  apply (X13_removeParent_stops_at_nil_parent TestStore.t notExistsText
           (commands ["docs/report.txt"; "archive"] false)
           "id-report" "docs/report.txt" [docs] [] store_nilparent).
  reflexivity.
Defined.

(** The run of X14: the source of the rename does not exist. *)
Lemma X14_witness :
  let g := commands ["missing.txt"; "summary.txt"] false in
  run_Rename g false store0
  = mkRes (Done (Some (Errorf ("missing.txt" ++ ": " ++ notExistsText))))
          store0 [EvFindByPath "missing.txt"].
Proof.
  apply (X14_Rename_resolution_failure TestStore.t urlToPath ForceKey
           notExistsText join
           (commands ["missing.txt"; "summary.txt"] false) false
           "missing.txt" "summary.txt" [] [] ErrPathNotExists store0).
  - reflexivity.
  - reflexivity.
Defined.

(** The run of X15: a rename onto a name that is taken, without the
    force flag. *)
Lemma X15_witness :
  let g := commands ["docs/report.txt"; "notes.txt"] false in
  run_Rename g false store0
  = mkRes (Done None) store0
      [EvFindByPath "docs/report.txt"; EvFindByPath "docs/notes.txt";
       EvLogErrf ("docs/notes.txt" ++ " already exists. Use `" ++ ForceKey
                    ++ "` flag to override this behaviour")].
Proof.
  apply (X15_Rename_without_force_only_logs TestStore.t urlToPath ForceKey
           notExistsText join
           (commands ["docs/report.txt"; "notes.txt"] false) false
           "docs/report.txt" "notes.txt" [] [report] [notes] None store0).
  - reflexivity.
  - reflexivity.
  - reflexivity.
  - reflexivity.
Defined.

(** The run of X17: [docs/notes.txt] is taken and the force flag is
    off. *)
Lemma X17_witness :
  let g := commands ["docs/report.txt"; "notes.txt"] false in
  run_rename_ g "docs/report.txt" (Some report) false store0
  = mkRes (Done None) store0
      [EvFindByPath "docs/notes.txt";
       EvLogErrf ("docs/notes.txt" ++ " already exists. Use `" ++ ForceKey
                    ++ "` flag to override this behaviour")].
Proof.
  apply (X17_rename_refused_without_force TestStore.t urlToPath ForceKey
           notExistsText join
           (commands ["docs/report.txt"; "notes.txt"] false)
           "docs/report.txt" report false "notes.txt" [notes] store0).
  - reflexivity.
  - reflexivity.
  - reflexivity.
  - repeat constructor. discriminate.
Defined.

(** The run of X18: the same rename with the force flag on. *)
Lemma X18_witness :
  let g := commands ["docs/report.txt"; "notes.txt"] true in
  exists results s',
    length results = length [notes] /\
    run_rename_ g "docs/report.txt" (Some report) false store0
    = mkRes (Done (last results None)) s'
        (EvFindByPath
           (renameTarget TestStore.t urlToPath join g "docs/report.txt"
              false "notes.txt")
           :: flat_map (renameCall notExistsText (Id report) "notes.txt")
                results).
Proof.
  apply (X18_rename_forced_once_per_duplicate TestStore.t urlToPath ForceKey
           notExistsText join
           (commands ["docs/report.txt"; "notes.txt"] true)
           "docs/report.txt" report false "notes.txt" [notes] store0).
  - reflexivity.
  - reflexivity.
  - reflexivity.
  - repeat constructor. discriminate.
Defined.

(** The run of X19: the new name resolves to a nil entry. *)
Lemma X19_witness :
  let g := commands ["new.txt"; "ghost.txt"] false in
  run_rename_ g "new.txt" (Some other) false store_ghost
  = mkRes (Panic "nil pointer dereference: dup.Id") store_ghost
          [EvFindByPath "ghost.txt"].
Proof.
  apply (X19_rename_nil_duplicate_panics TestStore.t urlToPath ForceKey
           notExistsText join (commands ["new.txt"; "ghost.txt"] false)
           "new.txt" (Some other) false "ghost.txt" [] store_ghost).
  - reflexivity.
  - reflexivity.
Defined.

(** The run of X20: the lookups of the store fail. *)
Lemma X20_witness :
  let g := commands_down ["docs/notes.txt"; "archive"] false in
  run_Copy 0 g false store0
  = mkRes (Done (Some (Errorf ("destination: " ++ "archive" ++ " err: "
                                 ++ "backend failure"))))
          store0 [EvLogln "Processing..."; EvFindByPath "archive"].
Proof.
  apply (X20_Copy_destination_lookup_failure TestStore.t sepJoin
           notExistsText 0
           (commands_down ["docs/notes.txt"; "archive"] false) false
           [] (Errorf "backend failure") store0).
  - simpl. lia.
  - reflexivity.
  - reflexivity.
Defined.

(** The run of X21: a copy whose source does not exist. *)
Lemma X21_witness :
  let g := commands ["missing.txt"; "archive"] false in
  run_Copy 1 g false store0
  = mkRes (Done None) store0
      [EvLogln "Processing..."; EvFindByPath "archive";
       EvFindByPath "missing.txt";
       EvLogErrf ("missing.txt" ++ ": " ++ notExistsText ++ nl)].
Proof.
  apply (X21_Copy_unresolved_source_is_logged TestStore.t sepJoin
           notExistsText 1
           (commands ["missing.txt"; "archive"] false) false
           "missing.txt" "archive" [Some archive] None []
           ErrPathNotExists store0).
  - reflexivity.
  - reflexivity.
  - reflexivity.
  - reflexivity.
Defined.

(** The run of X22: two sources are copied onto a file. *)
Lemma X22_witness :
  let g := commands ["docs/report.txt"; "docs/report.txt"; "docs/notes.txt"]
             false in
  run_Copy 1 g false store0
  = mkRes (Done None) store0
      [EvLogln "Processing..."; EvFindByPath "docs/notes.txt";
       EvLogErrf ("copy_: " ++ "id-notes" ++ " "
                    ++ ("docs/notes.txt" ++ ": not a directory") ++ nl)].
Proof.
  apply (X22_Copy_many_sources_need_a_directory TestStore.t sepJoin
           notExistsText 1
           (commands ["docs/report.txt"; "docs/report.txt"; "docs/notes.txt"]
              false) false
           "docs/report.txt" "docs/report.txt" [] "docs/notes.txt"
           [Some notes] None store0).
  - reflexivity.
  - reflexivity.
  - reflexivity.
  - repeat constructor.
Defined.

(** The run of X24: a leaf the store does not allow to be copied. *)
Lemma X24_witness :
  let g := commands ["plan.gdoc"; "archive"] false in
  run_copy 0 g (Some gdoc) "archive" store0
  = mkRes (Done ([], [Errorf ("plan.gdoc" ++ " is non-copyable")]))
          store0 [].
Proof.
  apply (X24_copy_refuses_non_copyable TestStore.t sepJoin notExistsText 0
           (commands ["plan.gdoc"; "archive"] false) gdoc "archive" store0).
  - reflexivity.
  - reflexivity.
Defined.

(** The run of X25: the directory of the destination cannot be
    created. *)
Lemma X25_witness :
  let g := commands_ro ["docs/notes.txt"; "backup/notes.txt"] false in
  run_copy 1 g (Some notes) "backup/notes.txt" store0
  = mkRes (Done ([], [Errorf "read-only store"])) store0
          [EvMkdirAll "backup" (Some (Errorf "read-only store"))].
Proof.
  apply (X25_copy_mkdir_failure TestStore.t sepJoin notExistsText 0
           (commands_ro ["docs/notes.txt"; "backup/notes.txt"] false)
           notes "backup/notes.txt" None (Errorf "read-only store")
           store0 store0).
  - reflexivity.
  - reflexivity.
Defined.

(** The run of X26: [notes.txt] is copied onto the existing file
    [docs/report.txt]. *)
Lemma X26_witness :
  let g := commands ["docs/notes.txt"; "docs/report.txt"] false in
  exists evs,
    events (run_copy 0 g (Some notes) "docs/report.txt" store0)
    = EvMkdirAll "docs" None :: EvFindByPath "docs/report.txt" :: evs /\
    length evs = 1 /\
    Forall (fun ev => exists res, ev = EvCopy "report.txt" "id-docs" notes res)
           evs.
Proof.
  apply (X26_copy_beside_what_is_there TestStore.t sepJoin notExistsText 0
           (commands ["docs/notes.txt"; "docs/report.txt"] false)
           notes "docs/report.txt" docs store0 [Some report] None store0).
  - reflexivity.
  - reflexivity.
  - reflexivity.
  - reflexivity.
  - reflexivity.
  - repeat constructor.
Defined.

(** The run of X27: [mix] resolves to the directory [archive] and then
    to a file; both copies go into [archive]. *)
Lemma X27_witness :
  let g := commands ["docs/notes.txt"; "mix"] false in
  exists evs,
    events (run_copy 0 g (Some notes) "mix" store_mix)
    = EvMkdirAll EmptyString None :: EvFindByPath "mix" :: evs /\
    length evs = 2 /\
    Forall (fun ev => exists res, ev = EvCopy "notes.txt" "id-archive" notes res)
           evs.
Proof.
  apply (X27_copy_keeps_the_directory_it_switched_to TestStore.t sepJoin
           notExistsText 0 (commands ["docs/notes.txt"; "mix"] false)
           notes "mix" (mkFile "dir-" EmptyString true false) store_mix
           archive [Some report] None store_mix).
  - reflexivity.
  - reflexivity.
  - reflexivity.
  - reflexivity.
  - reflexivity.
  - reflexivity.
  - repeat constructor.
Defined.

(** The run of X28: the directory [docs], with a child that may not be
    copied, is copied to [backup]. *)
Lemma X28_witness :
  let g := commands_kids ["docs"; "backup"] false in
  run_copy 1 g (Some docs) "backup" store0
  = mkRes (Done ([Some (mkFile "dir-backup" "backup" true false)], []))
      store0
      [EvMkdirAll "backup" None; EvFindChildren "id-docs";
       EvLogErrf ("copy: backup/plan.gdoc: [plan.gdoc is non-copyable]"
                    ++ nl)].
Proof.
  apply (X28_copy_directory_hides_child_errors TestStore.t sepJoin
           notExistsText 0 (commands_kids ["docs"; "backup"] false)
           docs "backup" (Some (mkFile "dir-backup" "backup" true false))
           store0 [gdoc] store0).
  - reflexivity.
  - reflexivity.
  - reflexivity.
  - repeat constructor.
Defined.
